(** * stacks-transactions-js: post-conditions and the transaction aggregate

    A shallow embedding of [src/postcondition.ts] and [src/transaction.ts].

    JavaScript objects are records whose optional fields are [option]s;
    a method is a function from the state of the objects it can reach to
    a result and the new state of those objects, and a thrown [Error] is
    a result that keeps the state as it was when it was raised.  The
    modules the two files import ([utils], [types], [constants],
    [authorization], [payload], [keys]) are either modelled from the
    specification or taken as parameters of the development. *)

From Stdlib Require Import NArith Lia.
From Stdlib Require Import Ascii.
From Stdlib.Strings Require Import Byte.
From stdpp Require Import prelude strings.

Local Open Scope N_scope.

(** ** Results and the method monad *)

(** A JavaScript call either returns a value or throws [new Error(msg)]. *)
Inductive Result (A : Type) : Type :=
| Ok (a : A)
| Throw (msg : string).
Arguments Ok {A} a.
Arguments Throw {A} msg.

Definition is_Ok {A} (r : Result A) : bool :=
  match r with Ok _ => true | Throw _ => false end.

(** [M S A]: a call that runs against mutable state [S].  The state is
    returned in both outcomes: what was assigned before a [throw] stays
    assigned. *)
Definition M (S A : Type) : Type := S -> Result A * S.

Definition ret {S A} (a : A) : M S A := fun s => (Ok a, s).
Definition throw {S A} (msg : string) : M S A := fun s => (Throw msg, s).
Definition bind {S A B} (m : M S A) (k : A -> M S B) : M S B :=
  fun s => match m s with
           | (Ok a, s') => k a s'
           | (Throw msg, s') => (Throw msg, s')
           end.
Definition get {S} : M S S := fun s => (Ok s, s).
Definition modify {S} (f : S -> S) : M S unit := fun s => (Ok tt, f s).

(** A call on an immutable value, which can only return or throw. *)
Definition lift {S A} (r : Result A) : M S A := fun s => (r, s).

Notation "x <- m ;; k" := (bind m (fun x => k))
  (at level 100, m at next level, right associativity).
Notation "m ;;; k" := (bind m (fun _ => k))
  (at level 100, right associativity).

(** The same sequencing on plain results. *)
Definition rbind {A B} (r : Result A) (k : A -> Result B) : Result B :=
  match r with Ok a => k a | Throw msg => Throw msg end.

(** ** Buffers and hexadecimal strings *)

Definition Buffer : Type := list byte.

Definition byte_of_N (n : N) : byte :=
  match Byte.of_N (n mod 256) with Some b => b | None => x00 end.

Definition hex_digit (n : N) : ascii :=
  match n with
  | 0 => "0" | 1 => "1" | 2 => "2" | 3 => "3" | 4 => "4" | 5 => "5"
  | 6 => "6" | 7 => "7" | 8 => "8" | 9 => "9" | 10 => "a" | 11 => "b"
  | 12 => "c" | 13 => "d" | 14 => "e" | _ => "f"
  end%char.

(** Value of a hexadecimal digit; both cases are accepted on input. *)
Definition hex_value (c : ascii) : option N :=
  let n := N_of_ascii c in
  if (48 <=? n) && (n <=? 57) then Some (n - 48)
  else if (97 <=? n) && (n <=? 102) then Some (n - 87)
  else if (65 <=? n) && (n <=? 70) then Some (n - 55)
  else None.

Definition byte_to_hex (b : byte) : string :=
  String (hex_digit (Byte.to_N b / 16))
    (String (hex_digit (Byte.to_N b mod 16)) EmptyString).

(** [buffer.toString('hex')]: two lower-case digits per byte. *)
Fixpoint toHex (b : Buffer) : string :=
  match b with
  | [] => EmptyString
  | x :: b' => String.append (byte_to_hex x) (toHex b')
  end.

(** [Buffer.from(s, 'hex')]: decodes digit pairs and stops at the first
    pair that is not hexadecimal. *)
Fixpoint fromHex (s : string) : Buffer :=
  match s with
  | String c1 (String c2 s') =>
      match hex_value c1, hex_value c2 with
      | Some h, Some l => byte_of_N (16 * h + l) :: fromHex s'
      | _, _ => []
      end
  | _ => []
  end.

(** Big-endian integers of a fixed width. *)
Fixpoint N_to_be (width : nat) (n : N) : Buffer :=
  match width with
  | O => []
  | S w => N_to_be w (n / 256) ++ [byte_of_N n]
  end.

Definition be_to_N (b : Buffer) : N :=
  fold_left (fun acc x => acc * 256 + Byte.to_N x) b 0.

(** Modelled from the spec: [BufferArray] of [utils], the list of chunks
    a serializer collects ("deterministic, order-preserving byte
    sequence with no padding"). *)
Definition BufferArray : Type := list Buffer.
Definition BufferArray_new : BufferArray := [].
Definition push (b : Buffer) (a : BufferArray) : BufferArray := a ++ [b].
Definition appendHexString (s : string) (a : BufferArray) : BufferArray :=
  push (fromHex s) a.
Definition concatBuffer (a : BufferArray) : Buffer := concat a.

(** Modelled from the spec: [BufferReader] of [utils], "a shared read
    cursor"; "reading past the end of the buffer is a fatal format
    error". *)
Record BufferReader : Type := mkReader { buffer : Buffer; index : nat }.

Definition BufferReader_new (b : Buffer) : BufferReader := mkReader b 0.

Definition remaining (r : BufferReader) : Buffer := drop (index r) (buffer r).

Definition advance (n : nat) (r : BufferReader) : BufferReader :=
  mkReader (buffer r) (index r + n).

Definition out_of_bounds : string := "read past the end of the buffer".

Definition read (n : nat) : M BufferReader Buffer :=
  fun r =>
    if decide (n <= length (remaining r))%nat
    then (Ok (take n (remaining r)), advance n r)
    else (Throw out_of_bounds, r).

(** [parseInt(bufferReader.read(n).toString('hex'), 16)] *)
Definition read_int (n : nat) : M BufferReader N :=
  b <- read n ;; ret (be_to_N b).

(** ** The message interface *)

(** Modelled from the spec: [StacksMessage] of [message], "every message
    type in this core implements both directions": [serialize()
    -> bytes] and the static [deserialize(cursor) -> Self]. *)
Class StacksMessage (T : Type) : Type := {
  serialize : T -> Result Buffer;
  deserialize : M BufferReader T
}.


(** [parses m bs a]: wherever the bytes [bs] sit under the cursor, [m]
    returns [a] and moves the cursor past exactly those bytes. *)
Definition parses {A} (m : M BufferReader A) (bs : Buffer) (a : A) : Prop :=
  forall r rest, remaining r = bs ++ rest ->
    m r = (Ok a, advance (length bs) r).

(** The same for an instance method, which also takes its receiver from
    [t] to [t']. *)
Definition runs {T A} (m : M (T * BufferReader) A) (bs : Buffer)
    (t : T) (a : A) (t' : T) : Prop :=
  forall r rest, remaining r = bs ++ rest ->
    m (t, r) = (Ok a, (t', advance (length bs) r)).

(** A codec is lawful on the values satisfying [wf] when they serialize
    and the bytes read back as the same value. *)
Definition Lawful {T} `{StacksMessage T} (wf : T -> Prop) : Prop :=
  forall x, wf x -> exists bs, serialize x = Ok bs /\ parses deserialize bs x.

(** ** Codec primitives of [types] *)

(** Modelled from the spec: [LengthPrefixedString] of [types], "a
    length-prefixed string (1-byte length, UTF-8 payload, max 128 bytes
    — exceeding this is a hard error, not truncation)", raised "at
    serialize time, not earlier".  The content is kept as its UTF-8
    bytes; the message is the one the test suite expects. *)
Record LengthPrefixedString : Type := mkLengthPrefixedString { content : string }.

Definition new_LengthPrefixedString (s : string) : LengthPrefixedString :=
  mkLengthPrefixedString s.

Definition MAX_STRING_LENGTH_BYTES : nat := 128.

Definition LengthPrefixedString_serialize (s : LengthPrefixedString) : Result Buffer :=
  let contentBuffer := String.list_byte_of_string (content s) in
  if decide (length contentBuffer <= MAX_STRING_LENGTH_BYTES)%nat
  then Ok (N_to_be 1 (N.of_nat (length contentBuffer)) ++ contentBuffer)
  else Throw "String length exceeds maximum bytes 128".

Definition LengthPrefixedString_deserialize : M BufferReader LengthPrefixedString :=
  n <- read_int 1 ;;
  b <- read (N.to_nat n) ;;
  ret (mkLengthPrefixedString (String.string_of_list_byte b)).

#[export] Instance LengthPrefixedString_message : StacksMessage LengthPrefixedString :=
  {| serialize := LengthPrefixedString_serialize;
     deserialize := LengthPrefixedString_deserialize |}.

Definition wf_LengthPrefixedString (s : LengthPrefixedString) : Prop :=
  (String.length (content s) <= MAX_STRING_LENGTH_BYTES)%nat.

(** Modelled from the spec: [LengthPrefixedList] of [types], "a
    length-prefixed list (4-byte big-endian count prefix, followed by
    homogeneous serialized elements; order is significant and preserved
    on round-trip)".  It is a JavaScript array: [push] appends. *)
Definition LengthPrefixedList (T : Type) : Type := list T.

Definition new_LengthPrefixedList {T} : LengthPrefixedList T := [].

Definition LengthPrefixedList_push {T} (x : T) (l : LengthPrefixedList T) :
  LengthPrefixedList T := l ++ [x].

Fixpoint serialize_items {T} `{StacksMessage T} (l : list T) : Result Buffer :=
  match l with
  | [] => Ok []
  | x :: l' =>
      rbind (serialize x) (fun b =>
      rbind (serialize_items l') (fun bs => Ok (b ++ bs)))
  end.

Definition LengthPrefixedList_serialize {T} `{StacksMessage T}
    (l : LengthPrefixedList T) : Result Buffer :=
  rbind (serialize_items l) (fun bs =>
    Ok (N_to_be 4 (N.of_nat (length l)) ++ bs)).

Fixpoint deserialize_items {T} `{StacksMessage T} (n : nat) : M BufferReader (list T) :=
  match n with
  | O => ret []
  | S n' => x <- deserialize ;; l <- deserialize_items n' ;; ret (x :: l)
  end.

Definition LengthPrefixedList_deserialize {T} `{StacksMessage T} :
  M BufferReader (LengthPrefixedList T) :=
  n <- read_int 4 ;; deserialize_items (N.to_nat n).

(** Amounts, nonces and fee rates are [BigNum]s of bn.js holding unsigned
    64-bit quantities ("amount:u64"). *)
Definition BigNum : Type := N.

(** [n.toArrayLike(Buffer, 'be', len)]: bn.js asserts that the number
    fits the requested length. *)
Definition toArrayLike (n : BigNum) (len : nat) : Result Buffer :=
  if decide (n < 256 ^ N.of_nat len)
  then Ok (N_to_be len n)
  else Throw "byte array longer than desired length".

(** [new BigNum(s, 16)] on the hexadecimal text of a buffer. *)
Definition new_BigNum_hex (s : string) : BigNum := be_to_N (fromHex s).

(** ** Errors for absent fields *)

Definition quote : string := String (ascii_of_N 34) EmptyString.

(** The message of [throw new Error('"field" is undefined')]. *)
Definition undefined_error (field : string) : string :=
  quote +:+ field +:+ quote +:+ " is undefined".

Definition required {S A} (field : string) (v : option A) : M S A :=
  match v with
  | Some a => ret a
  | None => throw (undefined_error field)
  end.

(** [o === c] for a possibly absent string [o] and a constant [c]. *)
Definition strict_eq (o : option string) (c : string) : bool := bool_decide (o = Some c).

(** Methods that take a [BufferReader] run on their receiver and the
    reader. *)
Definition on_reader {T A} (m : M BufferReader A) : M (T * BufferReader) A :=
  fun s => let '(res, r') := m (snd s) in (res, (fst s, r')).

Definition assign {T R} (f : T -> T) : M (T * R) unit :=
  fun s => (Ok tt, (f (fst s), snd s)).

Definition this_ {T R} : M (T * R) T := fun s => (Ok (fst s), s).

(** Modelled from the spec: the static [deserialize] of [message], which
    builds [new this()] and runs the instance method on it; on a failure
    "no partial object is returned". *)
Definition static_deserialize {T} (fresh : T) (m : M (T * BufferReader) unit) :
  M BufferReader T :=
  fun r => match m (fresh, r) with
           | (Ok _, (item, r')) => (Ok item, r')
           | (Throw msg, (_, r')) => (Throw msg, r')
           end.

(** A method called on an object that only the caller holds: the caller
    gets the result together with the object as the call left it. *)
Definition on_local {S T A} (x : T) (m : M T A) : M S (A * T) :=
  fun s => match m x with
           | (Ok a, x') => (Ok (a, x'), s)
           | (Throw msg, _) => (Throw msg, s)
           end.

(** [_.cloneDeep(x)]: a copy that shares no object with [x].  Objects
    are values here, so the copy is the value itself and later
    assignments to it are assignments to a local. *)
Definition cloneDeep {T} (x : T) : T := x.

(** ** Constants *)

(** The string enums of [constants]: each member is the hexadecimal text
    of its wire tag. *)
Class Constants : Type := {
  DEFAULT_CHAIN_ID : string;
  TransactionVersion_Mainnet : string;
  TransactionVersion_Testnet : string;
  PayloadType_Coinbase : string;
  PayloadType_PoisonMicroblock : string;
  AnchorMode_OnChainOnly : string;
  AnchorMode_Any : string;
  PostConditionMode_Deny : string;
  PostConditionType_STX : string;
  PostConditionType_Fungible : string;
  PostConditionType_NonFungible : string
}.

(** A one-byte tag, as [toString('hex')] prints it. *)
Definition hex_tag (s : string) : Prop := exists b : byte, s = toHex [b].

(** What the code relies on: the members of an enum are distinct one-byte
    tags. *)
Class ConstantsOK `{Constants} : Prop := {
  version_tags : hex_tag TransactionVersion_Mainnet /\ hex_tag TransactionVersion_Testnet;
  version_distinct : TransactionVersion_Mainnet <> TransactionVersion_Testnet;
  postcondition_tags :
    hex_tag PostConditionType_STX /\ hex_tag PostConditionType_Fungible /\
    hex_tag PostConditionType_NonFungible;
  postcondition_distinct :
    PostConditionType_STX <> PostConditionType_Fungible /\
    PostConditionType_STX <> PostConditionType_NonFungible /\
    PostConditionType_Fungible <> PostConditionType_NonFungible
}.

(** ** [postcondition.ts] *)

Section PostConditionModel.
Context {K : Constants}.
(** [Principal] and [AssetInfo] of [types]: message classes whose
    declarations are not among the sources. *)
Context {Principal AssetInfo : Type}.
Context {codec_Principal : StacksMessage Principal}.
Context {codec_AssetInfo : StacksMessage AssetInfo}.

Record PostCondition : Type := mkPostCondition {
  postConditionType : option string;
  principal : option Principal;
  conditionCode : option string;
  assetInfo : option AssetInfo;
  assetName : option LengthPrefixedString;
  amount : option BigNum
}.

Definition set_postConditionType v (this : PostCondition) : PostCondition :=
  mkPostCondition v (principal this) (conditionCode this) (assetInfo this)
    (assetName this) (amount this).
Definition set_principal v (this : PostCondition) : PostCondition :=
  mkPostCondition (postConditionType this) v (conditionCode this) (assetInfo this)
    (assetName this) (amount this).
Definition set_conditionCode v (this : PostCondition) : PostCondition :=
  mkPostCondition (postConditionType this) (principal this) v (assetInfo this)
    (assetName this) (amount this).
Definition set_assetInfo v (this : PostCondition) : PostCondition :=
  mkPostCondition (postConditionType this) (principal this) (conditionCode this) v
    (assetName this) (amount this).
Definition set_assetName v (this : PostCondition) : PostCondition :=
  mkPostCondition (postConditionType this) (principal this) (conditionCode this)
    (assetInfo this) v (amount this).
Definition set_amount v (this : PostCondition) : PostCondition :=
  mkPostCondition (postConditionType this) (principal this) (conditionCode this)
    (assetInfo this) (assetName this) v.

(** [constructor(postConditionType?, principal?, conditionCode?, amount?,
    assetInfo?, assetName?)] *)
Definition new_PostCondition
    (postConditionType_ : option string) (principal_ : option Principal)
    (conditionCode_ : option string) (amount_ : option BigNum)
    (assetInfo_ : option AssetInfo) (assetName_ : option string) : PostCondition :=
  {| postConditionType := postConditionType_;
     principal := principal_;
     conditionCode := conditionCode_;
     amount := amount_;
     assetInfo := assetInfo_;
     assetName := match assetName_ with
                  | Some s => Some (new_LengthPrefixedString s)
                  | None => None
                  end |}.

Definition PostCondition_serialize : M PostCondition Buffer :=
  this <- get ;;
  let bufferArray := BufferArray_new in
  postConditionType_ <- required "postConditionType" (postConditionType this) ;;
  let bufferArray := appendHexString postConditionType_ bufferArray in
  principal_ <- required "principal" (principal this) ;;
  b <- lift (serialize principal_) ;;
  let bufferArray := push b bufferArray in
  bufferArray <-
    (if strict_eq (postConditionType this) PostConditionType_Fungible
        || strict_eq (postConditionType this) PostConditionType_NonFungible
     then
       assetInfo_ <- required "assetInfo" (assetInfo this) ;;
       b <- lift (serialize assetInfo_) ;;
       ret (push b bufferArray)
     else ret bufferArray) ;;
  bufferArray <-
    (if strict_eq (postConditionType this) PostConditionType_NonFungible
     then
       assetName_ <- required "assetName" (assetName this) ;;
       b <- lift (serialize assetName_) ;;
       ret (push b bufferArray)
     else ret bufferArray) ;;
  conditionCode_ <- required "conditionCode" (conditionCode this) ;;
  let bufferArray := appendHexString conditionCode_ bufferArray in
  bufferArray <-
    (if strict_eq (postConditionType this) PostConditionType_STX
        || strict_eq (postConditionType this) PostConditionType_Fungible
     then
       amount_ <- required "amount" (amount this) ;;
       b <- lift (toArrayLike amount_ 8) ;;
       ret (push b bufferArray)
     else ret bufferArray) ;;
  ret (concatBuffer bufferArray).

Definition PostCondition_deserialize : M (PostCondition * BufferReader) unit :=
  b <- on_reader (read 1) ;;
  assign (set_postConditionType (Some (toHex b))) ;;;
  p <- on_reader deserialize ;;
  assign (set_principal (Some p)) ;;;
  this <- this_ ;;
  (if strict_eq (postConditionType this) PostConditionType_Fungible
      || strict_eq (postConditionType this) PostConditionType_NonFungible
   then
     a <- on_reader deserialize ;;
     assign (set_assetInfo (Some a))
   else ret tt) ;;;
  this <- this_ ;;
  (if strict_eq (postConditionType this) PostConditionType_NonFungible
   then
     s <- on_reader deserialize ;;
     assign (set_assetName (Some s))
   else ret tt) ;;;
  b <- on_reader (read 1) ;;
  assign (set_conditionCode (Some (toHex b))) ;;;
  this <- this_ ;;
  (if strict_eq (postConditionType this) PostConditionType_STX
      || strict_eq (postConditionType this) PostConditionType_Fungible
   then
     b <- on_reader (read 8) ;;
     assign (set_amount (Some (new_BigNum_hex (toHex b))))
   else ret tt).

(** [class STXPostCondition], [class FungiblePostCondition] and
    [class NonFungiblePostCondition]: the constructors fix the
    discriminant. *)
Definition new_STXPostCondition (principal_ : option Principal)
    (conditionCode_ : option string) (amount_ : option BigNum) : PostCondition :=
  new_PostCondition (Some PostConditionType_STX) principal_ conditionCode_ amount_
    None None.

Definition new_FungiblePostCondition (principal_ : option Principal)
    (conditionCode_ : option string) (amount_ : option BigNum)
    (assetInfo_ : option AssetInfo) : PostCondition :=
  new_PostCondition (Some PostConditionType_Fungible) principal_ conditionCode_ amount_
    assetInfo_ None.

Definition new_NonFungiblePostCondition (principal_ : option Principal)
    (conditionCode_ : option string) (assetInfo_ : option AssetInfo)
    (assetName_ : option string) : PostCondition :=
  new_PostCondition (Some PostConditionType_NonFungible) principal_ conditionCode_ None
    assetInfo_ assetName_.

#[export] Instance PostCondition_message : StacksMessage PostCondition :=
  {| serialize := fun x => fst (PostCondition_serialize x);
     deserialize :=
       static_deserialize (new_PostCondition None None None None None None)
         PostCondition_deserialize |}.
End PostConditionModel.
Arguments PostCondition : clear implicits.

(** ** [transaction.ts] *)

Section TransactionModel.
Context {K : Constants}.
Context {Principal AssetInfo : Type}.
Context {codec_Principal : StacksMessage Principal}.
Context {codec_AssetInfo : StacksMessage AssetInfo}.
(** [MessageSignature] of [authorization] and [StacksPrivateKey] of
    [keys] are only passed around. *)
Context {MessageSignature StacksPrivateKey : Type}.

(** Modelled from the spec: [SpendingCondition] of [authorization],
    "hash-mode byte, 20-byte signer hash, nonce (u64), fee-rate (u64),
    a key-encoding byte, and a signature"; [nonce] and [feeRate] are
    optional, as the checks of [signAndAppend] show. *)
Record SpendingCondition : Type := mkSpendingCondition {
  addressHashMode : string;
  signerAddress : Buffer;
  nonce : option BigNum;
  feeRate : option BigNum;
  pubKeyEncoding : string;
  signature : MessageSignature
}.

Definition set_signature v (c : SpendingCondition) : SpendingCondition :=
  mkSpendingCondition (addressHashMode c) (signerAddress c) (nonce c) (feeRate c)
    (pubKeyEncoding c) v.

(** Modelled from the spec: [Authorization] of [authorization],
    "tagged union {Standard(spending-condition), Sponsored(origin-condition,
    sponsor-condition)}"; [authType] and [spendingCondition] are
    optional, as the checks of [signNextOrigin] show. *)
Record Authorization : Type := mkAuthorization {
  authType : option string;
  spendingCondition : option SpendingCondition;
  sponsorSpendingCondition : option SpendingCondition
}.

Definition set_spendingCondition v (a : Authorization) : Authorization :=
  mkAuthorization (authType a) v (sponsorSpendingCondition a).

(** The arguments of one call of [SpendingCondition.nextSignature]. *)
Record NextSignatureCall : Type := mkNextSignatureCall {
  call_curSigHash : string;
  call_authType : string;
  call_feeRate : BigNum;
  call_nonce : BigNum;
  call_privateKey : StacksPrivateKey
}.

(** What [transaction.ts] calls in [authorization], [payload] and
    [utils]: the static [nextSignature], which signs and hashes;
    [singleSig()]; [intoInitialSighashAuth()], which may assign to
    its receiver; the discriminant of a payload; [txidFromData]. *)
Class Collaborators (Payload : Type) : Type := {
  nextSignature :
    string -> string -> BigNum -> BigNum -> StacksPrivateKey ->
    Result (MessageSignature * string);
  singleSig : SpendingCondition -> bool;
  intoInitialSighashAuth : M Authorization Authorization;
  payloadType : Payload -> option string;
  txidFromData : Buffer -> string
}.

Context {Payload : Type}.
Context {codec_Payload : StacksMessage Payload}.
Context {codec_Authorization : StacksMessage Authorization}.
Context {collaborators : Collaborators Payload}.

Record StacksTransaction : Type := mkStacksTransaction {
  version : option string;
  chainId : option string;
  auth : option Authorization;
  anchorMode : option string;
  payload : option Payload;
  postConditionMode : string;
  postConditions : LengthPrefixedList (PostCondition Principal AssetInfo)
}.

Definition set_version v (this : StacksTransaction) : StacksTransaction :=
  mkStacksTransaction v (chainId this) (auth this) (anchorMode this) (payload this)
    (postConditionMode this) (postConditions this).
Definition set_chainId v (this : StacksTransaction) : StacksTransaction :=
  mkStacksTransaction (version this) v (auth this) (anchorMode this) (payload this)
    (postConditionMode this) (postConditions this).
Definition set_auth v (this : StacksTransaction) : StacksTransaction :=
  mkStacksTransaction (version this) (chainId this) v (anchorMode this) (payload this)
    (postConditionMode this) (postConditions this).
Definition set_anchorMode v (this : StacksTransaction) : StacksTransaction :=
  mkStacksTransaction (version this) (chainId this) (auth this) v (payload this)
    (postConditionMode this) (postConditions this).
Definition set_payload v (this : StacksTransaction) : StacksTransaction :=
  mkStacksTransaction (version this) (chainId this) (auth this) (anchorMode this) v
    (postConditionMode this) (postConditions this).
Definition set_postConditionMode v (this : StacksTransaction) : StacksTransaction :=
  mkStacksTransaction (version this) (chainId this) (auth this) (anchorMode this)
    (payload this) v (postConditions this).
Definition set_postConditions v (this : StacksTransaction) : StacksTransaction :=
  mkStacksTransaction (version this) (chainId this) (auth this) (anchorMode this)
    (payload this) (postConditionMode this) v.

(** [constructor(version?, auth?, payload?)] *)
Definition new_StacksTransaction (version_ : option string)
    (auth_ : option Authorization) (payload_ : option Payload) : StacksTransaction :=
  let this :=
    {| version := version_;
       auth := auth_;
       payload := payload_;
       chainId := Some DEFAULT_CHAIN_ID;
       postConditionMode := PostConditionMode_Deny;
       postConditions := new_LengthPrefixedList;
       anchorMode := None |} in
  match payload_ with
  | Some p =>
      if strict_eq (payloadType p) PayloadType_Coinbase
      then set_anchorMode (Some AnchorMode_OnChainOnly) this
      else if strict_eq (payloadType p) PayloadType_PoisonMicroblock
      then set_anchorMode (Some AnchorMode_OnChainOnly) this
      else set_anchorMode (Some AnchorMode_Any) this
  | None => this
  end.

Definition StacksTransaction_serialize : M StacksTransaction Buffer :=
  this <- get ;;
  version_ <- required "version" (version this) ;;
  chainId_ <- required "chainId" (chainId this) ;;
  auth_ <- required "auth" (auth this) ;;
  anchorMode_ <- required "anchorMode" (anchorMode this) ;;
  payload_ <- required "payload" (payload this) ;;
  let bufferArray := BufferArray_new in
  let bufferArray := appendHexString version_ bufferArray in
  let bufferArray := appendHexString chainId_ bufferArray in
  b <- lift (serialize auth_) ;;
  let bufferArray := push b bufferArray in
  let bufferArray := appendHexString anchorMode_ bufferArray in
  let bufferArray := appendHexString (postConditionMode this) bufferArray in
  b <- lift (LengthPrefixedList_serialize (postConditions this)) ;;
  let bufferArray := push b bufferArray in
  b <- lift (serialize payload_) ;;
  let bufferArray := push b bufferArray in
  ret (concatBuffer bufferArray).

Definition StacksTransaction_txid : M StacksTransaction string :=
  serialized <- StacksTransaction_serialize ;;
  ret (txidFromData serialized).

Definition StacksTransaction_signBegin : M StacksTransaction string :=
  this <- get ;;
  let tx := cloneDeep this in
  auth_ <- required "auth" (auth tx) ;;
  initial <- on_local auth_ intoInitialSighashAuth ;;
  let tx := set_auth (Some (fst initial)) tx in
  id <- on_local tx StacksTransaction_txid ;;
  ret (fst id).

Definition StacksTransaction_signSingleSigStandard (privateKey : string) :
  M StacksTransaction unit := ret tt.

(** A call of the static [SpendingCondition.nextSignature]: the call is
    recorded with its arguments, so that a property can say which calls
    a method has made. *)
Definition call_nextSignature {O} (curSigHash authType_ : string)
    (feeRate_ nonce_ : BigNum) (privateKey : StacksPrivateKey) :
  M (O * list NextSignatureCall) (MessageSignature * string) :=
  fun s =>
    (nextSignature curSigHash authType_ feeRate_ nonce_ privateKey,
     (fst s,
      snd s ++ [mkNextSignatureCall curSigHash authType_ feeRate_ nonce_ privateKey])).

(** [signAndAppend] does not use [this]: it runs on the condition
    object it is given and on the record of the calls made to
    [nextSignature]. *)
Definition StacksTransaction_signAndAppend (curSigHash authType_ : string)
    (privateKey : StacksPrivateKey) :
  M (SpendingCondition * list NextSignatureCall) string :=
  condition <- this_ ;;
  feeRate_ <- required "condition.feeRate" (feeRate condition) ;;
  nonce_ <- required "condition.nonce" (nonce condition) ;;
  next <- call_nextSignature curSigHash authType_ feeRate_ nonce_ privateKey ;;
  (if singleSig condition
   then assign (set_signature (fst next))
   else ret tt) ;;;
  ret (snd next).

(** [this.auth.spendingCondition] is passed by reference: [signAndAppend]
    runs on the state of that object, and the state it leaves is the
    state of the condition of [this.auth] afterwards. *)
Definition StacksTransaction_signNextOrigin (sigHash : string)
    (privateKey : StacksPrivateKey) :
  M (StacksTransaction * list NextSignatureCall) string :=
  this <- this_ ;;
  auth_ <- required "auth" (auth this) ;;
  spendingCondition_ <- required "auth.spendingCondition" (spendingCondition auth_) ;;
  authType_ <- required "auth.authType" (authType auth_) ;;
  fun s =>
    let '(res, (condition, calls)) :=
      StacksTransaction_signAndAppend sigHash authType_ privateKey
        (spendingCondition_, snd s) in
    (res, (set_auth (Some (set_spendingCondition (Some condition) auth_)) (fst s), calls)).

Definition StacksTransaction_addPostCondition
    (postCondition : PostCondition Principal AssetInfo) : M StacksTransaction unit :=
  modify (fun this =>
    set_postConditions (LengthPrefixedList_push postCondition (postConditions this)) this).

Definition StacksTransaction_deserialize : M (StacksTransaction * BufferReader) unit :=
  b <- on_reader (read 1) ;;
  assign (set_version
    (Some (if bool_decide (toHex b = TransactionVersion_Mainnet)
           then TransactionVersion_Mainnet else TransactionVersion_Testnet))) ;;;
  b <- on_reader (read 4) ;;
  assign (set_chainId (Some (toHex b))) ;;;
  a <- on_reader deserialize ;;
  assign (set_auth (Some a)) ;;;
  b <- on_reader (read 1) ;;
  assign (set_anchorMode (Some (toHex b))) ;;;
  b <- on_reader (read 1) ;;
  assign (set_postConditionMode (toHex b)) ;;;
  l <- on_reader LengthPrefixedList_deserialize ;;
  assign (set_postConditions l) ;;;
  p <- on_reader deserialize ;;
  assign (set_payload (Some p)).

#[export] Instance StacksTransaction_message : StacksMessage StacksTransaction :=
  {| serialize := fun x => fst (StacksTransaction_serialize x);
     deserialize :=
       static_deserialize (new_StacksTransaction None None None)
         StacksTransaction_deserialize |}.
End TransactionModel.

(** ** Required fields *)

Definition absent {A} (o : option A) : bool :=
  match o with None => true | Some _ => false end.

Section RequiredFields.
Context {K : Constants}.
Context {Principal AssetInfo MessageSignature Payload : Type}.

(** The first of the required fields of a transaction (version,
    chain id, authorization, anchor mode, payload) that is absent. *)
Definition StacksTransaction_first_absent
    (x : @StacksTransaction Principal AssetInfo MessageSignature Payload) :
  option string :=
  if absent (version x) then Some "version"
  else if absent (chainId x) then Some "chainId"
  else if absent (auth x) then Some "auth"
  else if absent (anchorMode x) then Some "anchorMode"
  else if absent (payload x) then Some "payload"
  else None.

(** The first of the fields required by the variant of a
    post-condition that is absent: the discriminant, the principal
    and the condition code always, the asset info of a fungible or
    non-fungible one, the asset name of a non-fungible one, the amount
    of an STX or fungible one. *)
Definition PostCondition_first_absent (x : PostCondition Principal AssetInfo) :
  option string :=
  let t := postConditionType x in
  if absent t then Some "postConditionType"
  else if absent (principal x) then Some "principal"
  else if (strict_eq t PostConditionType_Fungible
           || strict_eq t PostConditionType_NonFungible) && absent (assetInfo x)
  then Some "assetInfo"
  else if strict_eq t PostConditionType_NonFungible && absent (assetName x)
  then Some "assetName"
  else if absent (conditionCode x) then Some "conditionCode"
  else if (strict_eq t PostConditionType_STX
           || strict_eq t PostConditionType_Fungible) && absent (amount x)
  then Some "amount"
  else None.
End RequiredFields.

(** ** Well-formed messages *)

Section WellFormed.
Context {K : Constants}.
Context {Principal AssetInfo MessageSignature Payload : Type}.
Context (wf_Principal : Principal -> Prop) (wf_AssetInfo : AssetInfo -> Prop).
Context (wf_Authorization : @Authorization MessageSignature -> Prop).
Context (wf_Payload : Payload -> Prop).

(** A well-formed post-condition is what one of the three variant
    constructors builds from arguments that are all present and within
    bounds: a well-formed principal (and asset info), a one-byte
    condition code, an amount below [2^64], an asset name of at most
    128 bytes.  The fields that do not belong to the variant are
    absent. *)
Inductive wf_PostCondition : PostCondition Principal AssetInfo -> Prop :=
| wf_STX p c a :
    wf_Principal p -> hex_tag c -> a < 2 ^ 64 ->
    wf_PostCondition (new_STXPostCondition (Some p) (Some c) (Some a))
| wf_Fungible p c a i :
    wf_Principal p -> hex_tag c -> a < 2 ^ 64 -> wf_AssetInfo i ->
    wf_PostCondition (new_FungiblePostCondition (Some p) (Some c) (Some a) (Some i))
| wf_NonFungible p c i n :
    wf_Principal p -> hex_tag c -> wf_AssetInfo i ->
    (String.length n <= MAX_STRING_LENGTH_BYTES)%nat ->
    wf_PostCondition (new_NonFungiblePostCondition (Some p) (Some c) (Some i) (Some n)).

(** A well-formed transaction has every field present: a version of
    the enum, a four-byte chain id, one-byte anchor and post-condition
    modes, a well-formed authorization and payload, and well-formed
    post-conditions, fewer than [2^32] as in any JavaScript array. *)
Record wf_StacksTransaction
    (x : @StacksTransaction Principal AssetInfo MessageSignature Payload) : Prop := {
  wf_version :
    version x = Some TransactionVersion_Mainnet \/
    version x = Some TransactionVersion_Testnet;
  wf_chainId : exists b, chainId x = Some (toHex b) /\ length b = 4%nat;
  wf_auth : exists a, auth x = Some a /\ wf_Authorization a;
  wf_anchorMode : exists m, anchorMode x = Some m /\ hex_tag m;
  wf_postConditionMode : hex_tag (postConditionMode x);
  wf_postConditions : Forall wf_PostCondition (postConditions x);
  wf_postConditions_length : N.of_nat (length (postConditions x)) < 2 ^ 32;
  wf_payload : exists p, payload x = Some p /\ wf_Payload p
}.
End WellFormed.

(** ** The wire formats of [types], [authorization] and [payload]

    The parameters above are instantiated with the layouts of the
    specification, so that the model can be run on the transactions of
    the test suite. *)

Module Wire.


(** Modelled from the spec: [Address] of [types], "a versioned 20-byte
    hash"; the checksummed text form belongs to the external address
    codec. *)
Record Address : Type := mkAddress { address_version : byte; hash160 : Buffer }.

Definition Address_serialize (a : Address) : Result Buffer :=
  Ok (address_version a :: hash160 a).

Definition Address_deserialize : M BufferReader Address :=
  v <- read 1 ;;
  h <- read 20 ;;
  ret (mkAddress (hd x00 v) h).

#[global] Instance Address_message : StacksMessage Address :=
  {| serialize := Address_serialize; deserialize := Address_deserialize |}.

Definition wf_Address (a : Address) : Prop := length (hash160 a) = 20%nat.

(** Modelled from the spec: [Principal] of [types], "tagged union
    {Standard(address), Contract(address, contract-name)}; the tag byte
    precedes the fields; contract-name is a length-prefixed string";
    "deserializing must recover the correct variant tag and never
    default to Standard". *)
Inductive Principal : Type :=
| StandardPrincipal (address : Address)
| ContractPrincipal (address : Address) (contractName : LengthPrefixedString).

Definition PrincipalType_Standard : string := "02".
Definition PrincipalType_Contract : string := "03".

Definition Principal_serialize (p : Principal) : Result Buffer :=
  match p with
  | StandardPrincipal a =>
      rbind (serialize a) (fun b => Ok (fromHex PrincipalType_Standard ++ b))
  | ContractPrincipal a n =>
      rbind (serialize a) (fun b =>
      rbind (serialize n) (fun bn => Ok (fromHex PrincipalType_Contract ++ b ++ bn)))
  end.

Definition Principal_deserialize : M BufferReader Principal :=
  t <- read 1 ;;
  a <- deserialize ;;
  if bool_decide (toHex t = PrincipalType_Standard) then ret (StandardPrincipal a)
  else if bool_decide (toHex t = PrincipalType_Contract) then
    n <- deserialize ;; ret (ContractPrincipal a n)
  else throw "unrecognized principal type".

#[global] Instance Principal_message : StacksMessage Principal :=
  {| serialize := Principal_serialize; deserialize := Principal_deserialize |}.

Definition wf_Principal (p : Principal) : Prop :=
  match p with
  | StandardPrincipal a => wf_Address a
  | ContractPrincipal a n => wf_Address a /\ wf_LengthPrefixedString n
  end.

(** Modelled from the spec: [AssetInfo] of [types], "(address,
    contract-name string, asset-name string) triple". *)
Record AssetInfo : Type := mkAssetInfo {
  asset_address : Address;
  asset_contractName : LengthPrefixedString;
  asset_assetName : LengthPrefixedString
}.

Definition AssetInfo_serialize (a : AssetInfo) : Result Buffer :=
  rbind (serialize (asset_address a)) (fun b1 =>
  rbind (serialize (asset_contractName a)) (fun b2 =>
  rbind (serialize (asset_assetName a)) (fun b3 => Ok (b1 ++ b2 ++ b3)))).

Definition AssetInfo_deserialize : M BufferReader AssetInfo :=
  a <- deserialize ;;
  c <- deserialize ;;
  n <- deserialize ;;
  ret (mkAssetInfo a c n).

#[global] Instance AssetInfo_message : StacksMessage AssetInfo :=
  {| serialize := AssetInfo_serialize; deserialize := AssetInfo_deserialize |}.

Definition wf_AssetInfo (a : AssetInfo) : Prop :=
  wf_Address (asset_address a) /\ wf_LengthPrefixedString (asset_contractName a) /\
  wf_LengthPrefixedString (asset_assetName a).

(** Modelled from the spec: [MessageSignature] of [authorization], a
    "65-byte recoverable signature; "empty" sentinel = all zero bytes". *)
Definition MessageSignature : Type := Buffer.
Definition MessageSignature_empty : MessageSignature := replicate 65 x00.

Definition StacksPrivateKey : Type := string.

Definition AuthType_Standard : string := "04".
Definition AuthType_Sponsored : string := "05".

(** Modelled from the spec: the wire format "Single-sig spending
    condition: hashMode(1) signerHash(20) nonce(8) feeRate(8)
    keyEncoding(1) signature(65)". *)
Definition SpendingCondition_serialize (c : @SpendingCondition MessageSignature) :
  Result Buffer :=
  match nonce c, feeRate c with
  | Some n, Some f =>
      rbind (toArrayLike n 8) (fun bn =>
      rbind (toArrayLike f 8) (fun bf =>
        Ok (fromHex (addressHashMode c) ++ signerAddress c ++ bn ++ bf
              ++ fromHex (pubKeyEncoding c) ++ signature c)))
  | None, _ => Throw (undefined_error "nonce")
  | _, None => Throw (undefined_error "feeRate")
  end.

Definition SpendingCondition_deserialize :
  M BufferReader (@SpendingCondition MessageSignature) :=
  m <- read 1 ;;
  h <- read 20 ;;
  n <- read 8 ;;
  f <- read 8 ;;
  k <- read 1 ;;
  s <- read 65 ;;
  ret (mkSpendingCondition (toHex m) h (Some (new_BigNum_hex (toHex n)))
         (Some (new_BigNum_hex (toHex f))) (toHex k) s).

#[global] Instance SpendingCondition_message :
  StacksMessage (@SpendingCondition MessageSignature) :=
  {| serialize := SpendingCondition_serialize;
     deserialize := SpendingCondition_deserialize |}.

Definition wf_SpendingCondition (c : @SpendingCondition MessageSignature) : Prop :=
  hex_tag (addressHashMode c) /\ length (signerAddress c) = 20%nat /\
  (exists n, nonce c = Some n /\ n < 2 ^ 64) /\
  (exists f, feeRate c = Some f /\ f < 2 ^ 64) /\
  hex_tag (pubKeyEncoding c) /\ length (signature c) = 65%nat.

(** Modelled from the spec: the wire format "Authorization: authType(1)
    spendingCondition [sponsorCondition]". *)
Definition Authorization_serialize (a : @Authorization MessageSignature) : Result Buffer :=
  match authType a, spendingCondition a with
  | Some t, Some c =>
      rbind (serialize c) (fun bc =>
        if bool_decide (t = AuthType_Sponsored) then
          match sponsorSpendingCondition a with
          | Some s => rbind (serialize s) (fun bs => Ok (fromHex t ++ bc ++ bs))
          | None => Throw (undefined_error "sponsorSpendingCondition")
          end
        else Ok (fromHex t ++ bc))
  | None, _ => Throw (undefined_error "authType")
  | _, None => Throw (undefined_error "spendingCondition")
  end.

Definition Authorization_deserialize : M BufferReader (@Authorization MessageSignature) :=
  t <- read 1 ;;
  c <- deserialize ;;
  if bool_decide (toHex t = AuthType_Sponsored) then
    s <- deserialize ;; ret (mkAuthorization (Some (toHex t)) (Some c) (Some s))
  else if bool_decide (toHex t = AuthType_Standard) then
    ret (mkAuthorization (Some (toHex t)) (Some c) None)
  else throw "unrecognized authorization type".

#[global] Instance Authorization_message : StacksMessage (@Authorization MessageSignature) :=
  {| serialize := Authorization_serialize; deserialize := Authorization_deserialize |}.

Definition wf_Authorization (a : @Authorization MessageSignature) : Prop :=
  match authType a, spendingCondition a, sponsorSpendingCondition a with
  | Some t, Some c, None => t = AuthType_Standard /\ wf_SpendingCondition c
  | Some t, Some c, Some s =>
      t = AuthType_Sponsored /\ wf_SpendingCondition c /\ wf_SpendingCondition s
  | _, _, _ => False
  end.

(** The tags of [constants].  The serialized transactions of the test
    suite show the version tags, the default chain id, [AnchorMode.Any]
    and [PostConditionMode.Deny]; the other tags are those of the
    network's wire format. *)
#[global] Instance stacks_constants : Constants :=
  {| DEFAULT_CHAIN_ID := "00000000";
     TransactionVersion_Mainnet := "00";
     TransactionVersion_Testnet := "80";
     PayloadType_Coinbase := "04";
     PayloadType_PoisonMicroblock := "03";
     AnchorMode_OnChainOnly := "01";
     AnchorMode_Any := "03";
     PostConditionMode_Deny := "02";
     PostConditionType_STX := "00";
     PostConditionType_Fungible := "01";
     PostConditionType_NonFungible := "02" |}.

Definition PayloadType_TokenTransfer : string := "00".

(** Modelled from the spec: the payloads of [payload] whose layout the
    specification fixes, "TokenTransfer(recipient, amount:u64,
    memo:34-byte fixed buffer)" and "Coinbase(32-byte fixed buffer)";
    the other variants rest on the external contract-value codec and on
    microblock headers. *)
Inductive Payload : Type :=
| TokenTransferPayload (recipientAddress : Address) (amount_ : BigNum) (memo : Buffer)
| CoinbasePayload (coinbaseBuffer : Buffer).

Definition MEMO_MAX_LENGTH_BYTES : nat := 34.
Definition COINBASE_BUFFER_LENGTH_BYTES : nat := 32.

(** "shorter client-provided memos are zero-padded on construction" *)
Definition new_TokenTransferPayload (recipient : Address) (amount_ : BigNum)
    (memo : string) : Payload :=
  let b := String.list_byte_of_string memo in
  TokenTransferPayload recipient amount_
    (b ++ replicate (MEMO_MAX_LENGTH_BYTES - length b) x00).

Definition Payload_payloadType (p : Payload) : option string :=
  match p with
  | TokenTransferPayload _ _ _ => Some PayloadType_TokenTransfer
  | CoinbasePayload _ => Some PayloadType_Coinbase
  end.

Definition Payload_serialize (p : Payload) : Result Buffer :=
  match p with
  | TokenTransferPayload r a m =>
      rbind (serialize r) (fun br =>
      rbind (toArrayLike a 8) (fun ba =>
        if decide (length m = MEMO_MAX_LENGTH_BYTES)
        then Ok (fromHex PayloadType_TokenTransfer ++ br ++ ba ++ m)
        else Throw "memo is not 34 bytes long"))
  | CoinbasePayload b =>
      if decide (length b = COINBASE_BUFFER_LENGTH_BYTES)
      then Ok (fromHex PayloadType_Coinbase ++ b)
      else Throw "coinbase buffer is not 32 bytes long"
  end.

Definition Payload_deserialize : M BufferReader Payload :=
  t <- read 1 ;;
  if bool_decide (toHex t = PayloadType_TokenTransfer) then
    r <- deserialize ;;
    a <- read 8 ;;
    m <- read MEMO_MAX_LENGTH_BYTES ;;
    ret (TokenTransferPayload r (new_BigNum_hex (toHex a)) m)
  else if bool_decide (toHex t = PayloadType_Coinbase) then
    b <- read COINBASE_BUFFER_LENGTH_BYTES ;;
    ret (CoinbasePayload b)
  else throw "unrecognized payload type".

#[global] Instance Payload_message : StacksMessage Payload :=
  {| serialize := Payload_serialize; deserialize := Payload_deserialize |}.

Definition wf_Payload (p : Payload) : Prop :=
  match p with
  | TokenTransferPayload r a m =>
      wf_Address r /\ a < 2 ^ 64 /\ length m = MEMO_MAX_LENGTH_BYTES
  | CoinbasePayload b => length b = COINBASE_BUFFER_LENGTH_BYTES
  end.

(** Stand-ins for the external collaborators, used to run the model:
    the signing and hashing primitives are replaced by plain renderings
    of their inputs.  [intoInitialSighashAuth] is modelled
    from the spec: "a stripped form that omits not-yet-known
    signatures". *)
Definition clear_signature (c : @SpendingCondition MessageSignature) :
  @SpendingCondition MessageSignature :=
  set_signature MessageSignature_empty c.

Definition demo_presign (curSigHash authType_ : string) (feeRate_ nonce_ : BigNum) : string :=
  curSigHash +:+ authType_ +:+ toHex (N_to_be 8 feeRate_) +:+ toHex (N_to_be 8 nonce_).

#[global] Instance demo_collaborators :
  @Collaborators MessageSignature StacksPrivateKey Payload :=
  {| nextSignature := fun curSigHash authType_ feeRate_ nonce_ privateKey =>
       let presign := demo_presign curSigHash authType_ feeRate_ nonce_ in
       let sig := take 65 (String.list_byte_of_string (privateKey +:+ presign)
                           ++ replicate 65 x00) in
       Ok (sig, presign +:+ toHex sig);
     singleSig := fun c =>
       bool_decide (addressHashMode c = "00") || bool_decide (addressHashMode c = "02");
     intoInitialSighashAuth := fun a =>
       (Ok (mkAuthorization (authType a)
              (clear_signature <$> spendingCondition a)
              (clear_signature <$> sponsorSpendingCondition a)), a);
     payloadType := Payload_payloadType;
     txidFromData := toHex |}.

Abbreviation DemoPostCondition := (PostCondition Principal AssetInfo).
Abbreviation DemoTransaction :=
  (@StacksTransaction Principal AssetInfo MessageSignature Payload).

(** *** Values of the test suite *)

(** The signed mainnet token transfer of the test "Make STX token
    transfer": recipient, amount 12345, memo "test memo", fee rate and
    nonce 0, and the signature that the expected serialization shows. *)
Definition example_recipient : Address :=
  mkAddress x16 (fromHex "df0ba3e79792be7be5e50a370289accfc8c9e032").

Definition example_condition : @SpendingCondition MessageSignature :=
  {| addressHashMode := "00";
     signerAddress := fromHex "15c31b8c1c11c515e244b75806bac48d1399c775";
     nonce := Some 0;
     feeRate := Some 0;
     pubKeyEncoding := "00";
     signature :=
       fromHex ("0004ae1e7a04089e596377ab4a0f74dfbae05c615a8223f1896df0f28fc334dc79"
                +:+ "4f6faed38abdbc611a0f1816738016afa25b4478e607b4d2a58c3d07925f8e04") |}.

Definition example_auth : @Authorization MessageSignature :=
  mkAuthorization (Some AuthType_Standard) (Some example_condition) None.

Definition example_payload : Payload :=
  new_TokenTransferPayload example_recipient 12345 "test memo".

Definition example_transaction : DemoTransaction :=
  new_StacksTransaction (Some TransactionVersion_Mainnet) (Some example_auth)
    (Some example_payload).

Definition example_serialized : string :=
  "0000000000040015c31b8c1c11c515e244b75806bac48d1399c775000000000000000000000000000"
  +:+ "00000000004ae1e7a04089e596377ab4a0f74dfbae05c615a8223f1896df0f28fc334dc794f6faed38abdb"
  +:+ "c611a0f1816738016afa25b4478e607b4d2a58c3d07925f8e040302000000000016df0ba3e79792be7be5e"
  +:+ "50a370289accfc8c9e032000000000000303974657374206d656d6f0000000000000000000000000000000"
  +:+ "0000000000000000000".

(** The post-conditions of the tests "STX post condition", "Fungible
    post condition" and "Non-fungible post condition": amount 1000000,
    asset [contract_name]/[asset_name], asset name [nft_asset_name]. *)
Definition example_principal : Principal := StandardPrincipal example_recipient.

Definition example_contract_principal : Principal :=
  ContractPrincipal example_recipient (new_LengthPrefixedString "contract-name").

Definition example_assetInfo : AssetInfo :=
  mkAssetInfo example_recipient (new_LengthPrefixedString "contract_name")
    (new_LengthPrefixedString "asset_name").

Definition FungibleConditionCode_GreaterEqual : string := "03".
Definition NonFungibleConditionCode_Owns : string := "11".

Definition example_stx : DemoPostCondition :=
  new_STXPostCondition (Some example_principal)
    (Some FungibleConditionCode_GreaterEqual) (Some 1000000).

Definition example_fungible : DemoPostCondition :=
  new_FungiblePostCondition (Some example_principal)
    (Some FungibleConditionCode_GreaterEqual) (Some 1000000) (Some example_assetInfo).

Definition example_nft : DemoPostCondition :=
  new_NonFungiblePostCondition (Some example_contract_principal)
    (Some NonFungibleConditionCode_Owns) (Some example_assetInfo)
    (Some "nft_asset_name").

(** The transfer with the three post-conditions added. *)
Definition example_guarded : DemoTransaction :=
  set_postConditions [example_stx; example_fungible; example_nft] example_transaction.

(** A non-fungible post-condition whose asset name is the 129-byte
    string of the test "Length prefixed strings" and whose condition
    code is absent. *)
Definition long_name : string := String.string_of_list_byte (replicate 129 "a"%byte).

Definition example_unfinished : DemoPostCondition :=
  new_NonFungiblePostCondition (Some example_contract_principal) None
    (Some example_assetInfo) (Some long_name).

(** A transaction built from a version and an authorization alone. *)
Definition example_empty : DemoTransaction :=
  new_StacksTransaction (Some TransactionVersion_Testnet) (Some example_auth) None.

(** The transfer before it is signed. *)
Definition example_unsigned : DemoTransaction :=
  set_auth
    (Some (set_spendingCondition (Some (clear_signature example_condition)) example_auth))
    example_transaction.

(** The unsigned transfer with no fee rate in its spending condition. *)
Definition example_condition_no_fee : @SpendingCondition MessageSignature :=
  mkSpendingCondition "00" (signerAddress example_condition) (Some 0) None "00"
    MessageSignature_empty.

Definition example_no_fee : DemoTransaction :=
  new_StacksTransaction (Some TransactionVersion_Testnet)
    (Some (mkAuthorization (Some AuthType_Standard) (Some example_condition_no_fee) None))
    (Some example_payload).

(** A reader on the serialized transfer with its first byte replaced by
    [0x17], which is the tag of no version. *)
Definition example_odd_version : BufferReader :=
  BufferReader_new (x17 :: drop 1 (fromHex example_serialized)).

(** The serialization of the transfer before it is signed: the one of
    the signed transfer with zero bytes for the signature. *)
Definition example_unsigned_serialized : string :=
  "0000000000040015c31b8c1c11c515e244b75806bac48d1399c77500000000000000000000000000"
  +:+ "00000000000000000000000000000000000000000000000000000000000000000000000000000000"
  +:+ "00000000000000000000000000000000000000000000000000000000000302000000000016df0ba3"
  +:+ "e79792be7be5e50a370289accfc8c9e032000000000000303974657374206d656d6f000000000000"
  +:+ "00000000000000000000000000000000000000".

Definition example_coinbase : Payload :=
  CoinbasePayload (replicate COINBASE_BUFFER_LENGTH_BYTES x00).

(** The STX post-condition as the constructor of the base class builds
    it when it is also given an asset info and an asset name, which the
    variant has no use for. *)
Definition example_stx_extra : DemoPostCondition :=
  new_PostCondition (Some PostConditionType_STX) (Some example_principal)
    (Some FungibleConditionCode_GreaterEqual) (Some 1000000)
    (Some example_assetInfo) (Some "nft_asset_name").

(** The bytes of the STX post-condition: discriminant, standard
    principal, condition code, amount. *)
Definition example_stx_serialized : string :=
  "000216df0ba3e79792be7be5e50a370289accfc8c9e0320300000000000f4240".


(** The unsigned transfer with a condition that is not single-sig: its
    hash mode is the one of a pay-to-script-hash address. *)
Definition example_multisig_condition : @SpendingCondition MessageSignature :=
  mkSpendingCondition "01" (signerAddress example_condition) (Some 0) (Some 0) "00"
    MessageSignature_empty.

Definition example_multisig_auth : @Authorization MessageSignature :=
  mkAuthorization (Some AuthType_Standard) (Some example_multisig_condition) None.

Definition example_multisig : DemoTransaction :=
  new_StacksTransaction (Some TransactionVersion_Mainnet) (Some example_multisig_auth)
    (Some example_payload).

(** The transfer with an authorization that has no type, and the
    transfer with a memo of a single byte. *)
Definition example_untyped_auth : DemoTransaction :=
  set_auth (Some (mkAuthorization None (Some example_condition) None)) example_transaction.

Definition example_short_memo : DemoTransaction :=
  set_payload (Some (TokenTransferPayload example_recipient 12345 [x00]))
    example_transaction.
End Wire.

(** * Properties *)

(** ** Bytes, integers and hexadecimal text *)

Lemma to_N_byte_of_N n : Byte.to_N (byte_of_N n) = n mod 256.
Proof.
  unfold byte_of_N. destruct (Byte.of_N (n mod 256)) eqn:E.
  - by apply Byte.to_of_N.
  - apply Byte.of_N_None_iff in E. pose proof (N.mod_lt n 256). lia.
Qed.

Lemma byte_of_N_to_N b : byte_of_N (Byte.to_N b) = b.
Proof.
  unfold byte_of_N. pose proof (Byte.to_N_bounded b).
  rewrite N.mod_small by lia. by rewrite Byte.of_to_N.
Qed.

Lemma length_N_to_be w n : length (N_to_be w n) = w.
Proof.
  revert n. induction w as [|w IH]; intros n; simpl; [done|].
  rewrite length_app, IH. simpl. lia.
Qed.

Lemma be_to_N_snoc b x : be_to_N (b ++ [x]) = be_to_N b * 256 + Byte.to_N x.
Proof. unfold be_to_N. by rewrite fold_left_app. Qed.

Lemma be_to_N_to_be w n : be_to_N (N_to_be w n) = n mod 256 ^ N.of_nat w.
Proof.
  revert n. induction w as [|w IH]; intros n.
  - simpl. by rewrite N.mod_1_r.
  - cbn [N_to_be]. rewrite be_to_N_snoc, IH, to_N_byte_of_N.
    rewrite Nat2N.inj_succ, N.pow_succ_r', N.Div0.mod_mul_r. lia.
Qed.

Lemma be_to_N_to_be_small w n : n < 256 ^ N.of_nat w -> be_to_N (N_to_be w n) = n.
Proof. intros Hn. rewrite be_to_N_to_be. by apply N.mod_small. Qed.

Lemma hex_value_digit n : n < 16 -> hex_value (hex_digit n) = Some n.
Proof.
  intros Hn. destruct n as [|p]; [reflexivity|].
  do 5 (try destruct p as [p|p|]; try reflexivity; try lia).
Qed.

Lemma fromHex_byte b s : fromHex (String.append (byte_to_hex b) s) = b :: fromHex s.
Proof.
  unfold byte_to_hex.
  change (fromHex (String (hex_digit (Byte.to_N b / 16))
                     (String (hex_digit (Byte.to_N b mod 16)) s)) = b :: fromHex s).
  cbn [fromHex].
  pose proof (Byte.to_N_bounded b) as Hb.
  rewrite !hex_value_digit by (try apply N.mod_lt; try apply N.Div0.div_lt_upper_bound; lia).
  f_equal. rewrite <- N.div_mod' . apply byte_of_N_to_N.
Qed.

Lemma fromHex_toHex b : fromHex (toHex b) = b.
Proof.
  induction b as [|x b IH]; [done|].
  cbn [toHex]. by rewrite fromHex_byte, IH.
Qed.

Lemma toHex_inj b1 b2 : toHex b1 = toHex b2 -> b1 = b2.
Proof. intros E. by rewrite <- (fromHex_toHex b1), E, fromHex_toHex. Qed.

Lemma fromHex_tag s : hex_tag s -> exists b, s = toHex [b] /\ fromHex s = [b].
Proof. intros [b ->]. exists b. by rewrite fromHex_toHex. Qed.

(** ** The reader *)

Lemma remaining_advance n r : remaining (advance n r) = drop n (remaining r).
Proof. unfold remaining, advance. simpl. by rewrite drop_drop. Qed.

Lemma advance_advance n m r : advance m (advance n r) = advance (n + m) r.
Proof. unfold advance. simpl. f_equal. lia. Qed.

Lemma advance_0 r : advance 0 r = r.
Proof. destruct r. unfold advance. simpl. f_equal. lia. Qed.

Lemma remaining_advance_app r bs rest :
  remaining r = bs ++ rest -> remaining (advance (length bs) r) = rest.
Proof. intros E. by rewrite remaining_advance, E, drop_app_length. Qed.

Lemma read_app r bs rest :
  remaining r = bs ++ rest -> read (length bs) r = (Ok bs, advance (length bs) r).
Proof.
  intros E. unfold read. rewrite E.
  rewrite decide_True by (rewrite length_app; lia).
  by rewrite take_app_length.
Qed.

Lemma read_exact n r bs rest :
  length bs = n -> remaining r = bs ++ rest -> read n r = (Ok bs, advance n r).
Proof. intros <-. apply read_app. Qed.

(** ** Sequencing of parsers *)

Lemma parses_ret {A} (a : A) : parses (ret a) [] a.
Proof. intros r rest _. unfold ret. simpl. by rewrite advance_0. Qed.

Lemma parses_read bs : parses (read (length bs)) bs bs.
Proof. intros r rest E. by eapply read_app. Qed.

Lemma parses_read_n n bs : length bs = n -> parses (read n) bs bs.
Proof. intros <-. apply parses_read. Qed.

Lemma parses_bind {A B} (m : M BufferReader A) (k : A -> M BufferReader B)
    bs1 bs2 a b :
  parses m bs1 a -> parses (k a) bs2 b -> parses (bind m k) (bs1 ++ bs2) b.
Proof.
  intros H1 H2 r rest E. unfold bind.
  rewrite (H1 r (bs2 ++ rest)) by (by rewrite E, app_assoc).
  rewrite (H2 (advance (length bs1) r) rest).
  - by rewrite advance_advance, length_app.
  - apply remaining_advance_app. by rewrite E, app_assoc.
Qed.

Lemma parses_bind_eq {A B} (m : M BufferReader A) (k : A -> M BufferReader B)
    bs bs1 bs2 a b :
  bs = bs1 ++ bs2 ->
  parses m bs1 a -> parses (k a) bs2 b -> parses (bind m k) bs b.
Proof. intros ->. apply parses_bind. Qed.

Lemma parses_read_int w n :
  n < 256 ^ N.of_nat w -> parses (read_int w) (N_to_be w n) n.
Proof.
  intros Hn. unfold read_int.
  eapply parses_bind_eq; [symmetry; apply app_nil_r| |].
  - apply parses_read_n, length_N_to_be.
  - rewrite be_to_N_to_be_small by done. apply parses_ret.
Qed.

Lemma runs_ret {T A} (t : T) (a : A) : runs (ret a) [] t a t.
Proof. intros r rest _. unfold ret. simpl. by rewrite advance_0. Qed.

Lemma runs_assign {T} (f : T -> T) (t : T) : runs (assign f) [] t tt (f t).
Proof. intros r rest _. unfold assign. simpl. by rewrite advance_0. Qed.

Lemma runs_this {T} (t : T) : runs this_ [] t t t.
Proof. intros r rest _. unfold this_. simpl. by rewrite advance_0. Qed.

Lemma runs_on_reader {T A} (m : M BufferReader A) bs (t : T) a :
  parses m bs a -> runs (on_reader m) bs t a t.
Proof. intros Hm r rest E. unfold on_reader. simpl. by rewrite (Hm r rest E). Qed.

Lemma runs_bind {T A B} (m : M (T * BufferReader) A) (k : A -> M (T * BufferReader) B)
    bs1 bs2 t a t1 b t2 :
  runs m bs1 t a t1 -> runs (k a) bs2 t1 b t2 -> runs (bind m k) (bs1 ++ bs2) t b t2.
Proof.
  intros H1 H2 r rest E. unfold bind.
  rewrite (H1 r (bs2 ++ rest)) by (by rewrite E, app_assoc).
  rewrite (H2 (advance (length bs1) r) rest).
  - by rewrite advance_advance, length_app.
  - apply remaining_advance_app. by rewrite E, app_assoc.
Qed.

Lemma runs_bind_eq {T A B} (m : M (T * BufferReader) A)
    (k : A -> M (T * BufferReader) B) bs bs1 bs2 t a t1 b t2 :
  bs = bs1 ++ bs2 ->
  runs m bs1 t a t1 -> runs (k a) bs2 t1 b t2 -> runs (bind m k) bs t b t2.
Proof. intros ->. apply runs_bind. Qed.

(** An assignment or a look at [this] reads nothing. *)
Lemma runs_bind_nil {T A B} (m : M (T * BufferReader) A)
    (k : A -> M (T * BufferReader) B) bs t a t1 b t2 :
  runs m [] t a t1 -> runs (k a) bs t1 b t2 -> runs (bind m k) bs t b t2.
Proof. intros H1 H2. by eapply (runs_bind_eq _ _ bs [] bs). Qed.

Lemma static_deserialize_parses {T} (fresh : T) m bs x :
  runs m bs fresh tt x -> parses (static_deserialize fresh m) bs x.
Proof. intros Hm r rest E. unfold static_deserialize. by rewrite (Hm r rest E). Qed.

(** ** Length-prefixed strings and lists *)

Lemma length_list_byte_of_string s :
  length (String.list_byte_of_string s) = String.length s.
Proof.
  unfold String.list_byte_of_string.
  induction s as [|c s IH]; simpl; [done|]. by rewrite IH.
Qed.

Lemma LengthPrefixedString_lawful : Lawful wf_LengthPrefixedString.
Proof.
  intros [s] Hs. unfold wf_LengthPrefixedString in Hs. simpl in Hs.
  cbn [serialize deserialize LengthPrefixedString_message].
  unfold LengthPrefixedString_serialize, LengthPrefixedString_deserialize.
  cbn [content].
  rewrite decide_True by (by rewrite length_list_byte_of_string).
  eexists. split; [done|].
  eapply parses_bind.
  { apply parses_read_int. rewrite length_list_byte_of_string.
    unfold MAX_STRING_LENGTH_BYTES in Hs. change (256 ^ N.of_nat 1) with 256. lia. }
  rewrite Nat2N.id.
  eapply parses_bind_eq; [symmetry; apply app_nil_r|apply parses_read|].
  rewrite String.string_of_list_byte_of_string. apply parses_ret.
Qed.

Lemma serialize_items_lawful {T} `{StacksMessage T} (wf : T -> Prop) :
  Lawful wf -> forall l, Forall wf l ->
  exists bs, serialize_items l = Ok bs /\ parses (deserialize_items (length l)) bs l.
Proof.
  intros HL l Hl. induction Hl as [|x l Hx Hl IH].
  - exists []. split; [done|]. apply parses_ret.
  - destruct (HL x Hx) as (b & Eb & Pb). destruct IH as (bs & Ebs & Pbs).
    exists (b ++ bs). split.
    + cbn [serialize_items]. by rewrite Eb, Ebs.
    + cbn [length deserialize_items].
      eapply parses_bind; [exact Pb|].
      eapply parses_bind_eq; [symmetry; apply app_nil_r|exact Pbs|apply parses_ret].
Qed.

Lemma LengthPrefixedList_lawful {T} `{StacksMessage T} (wf : T -> Prop) :
  Lawful wf -> forall l : LengthPrefixedList T,
  Forall wf l -> N.of_nat (length l) < 2 ^ 32 ->
  exists bs, LengthPrefixedList_serialize l = Ok bs /\
             parses LengthPrefixedList_deserialize bs l.
Proof.
  intros HL l Hl Hn.
  destruct (serialize_items_lawful wf HL l Hl) as (bs & Ebs & Pbs).
  exists (N_to_be 4 (N.of_nat (length l)) ++ bs). split.
  - unfold LengthPrefixedList_serialize. by rewrite Ebs.
  - unfold LengthPrefixedList_deserialize.
    eapply parses_bind; [by apply parses_read_int|].
    by rewrite Nat2N.id.
Qed.

(** ** Post-conditions *)

Lemma strict_eq_same c : strict_eq (Some c) c = true.
Proof. unfold strict_eq. by rewrite bool_decide_eq_true. Qed.

Lemma strict_eq_diff c1 c2 : c1 <> c2 -> strict_eq (Some c1) c2 = false.
Proof. intros Hne. unfold strict_eq. rewrite bool_decide_eq_false. congruence. Qed.

Lemma toArrayLike_8 a : a < 2 ^ 64 -> toArrayLike a 8 = Ok (N_to_be 8 a).
Proof. intros Ha. unfold toArrayLike. by rewrite decide_True. Qed.

Lemma new_BigNum_hex_be a : a < 2 ^ 64 -> new_BigNum_hex (toHex (N_to_be 8 a)) = a.
Proof.
  intros Ha. unfold new_BigNum_hex. rewrite fromHex_toHex.
  by apply be_to_N_to_be_small.
Qed.

Lemma runs_assign_eq {T} (f : T -> T) (t t' : T) :
  t' = f t -> runs (assign f) [] t tt t'.
Proof. intros ->. apply runs_assign. Qed.

Lemma runs_ret_eq {T A} (t t' : T) (a : A) : t' = t -> runs (ret a) [] t a t'.
Proof. intros ->. apply runs_ret. Qed.

(** Flatten the chunks a serializer has pushed. *)
Ltac flatten_buffers :=
  unfold appendHexString, push, concatBuffer, BufferArray_new;
  rewrite ?concat_app; cbn [concat app]; rewrite ?app_nil_r, <- ?app_assoc.

Ltac run_pure :=
  eapply runs_bind_nil; [first [apply runs_assign | apply runs_this | apply runs_ret]|].
Ltac run_read P :=
  eapply runs_bind; [apply runs_on_reader; P|].
Ltac run_last P :=
  eapply runs_bind_eq; [symmetry; apply app_nil_r|apply runs_on_reader; P|].

Section Properties.
Context {K : Constants} {K_ok : ConstantsOK}.
Context {Principal AssetInfo : Type}.
Context {codec_Principal : StacksMessage Principal}.
Context {codec_AssetInfo : StacksMessage AssetInfo}.
Context {MessageSignature StacksPrivateKey Payload : Type}.
Context {codec_Payload : StacksMessage Payload}.
Context {codec_Authorization : StacksMessage (@Authorization MessageSignature)}.
Context {collaborators : @Collaborators MessageSignature StacksPrivateKey Payload}.
Context (wf_Principal : Principal -> Prop) (wf_AssetInfo : AssetInfo -> Prop).
Context (wf_Authorization : @Authorization MessageSignature -> Prop).
Context (wf_Payload : Payload -> Prop).
Hypothesis Principal_lawful : Lawful wf_Principal.
Hypothesis AssetInfo_lawful : Lawful wf_AssetInfo.
Hypothesis Authorization_lawful : Lawful wf_Authorization.
Hypothesis Payload_lawful : Lawful wf_Payload.

Local Abbreviation PostCondition := (PostCondition Principal AssetInfo).
Local Abbreviation StacksTransaction :=
  (@StacksTransaction Principal AssetInfo MessageSignature Payload).
Local Abbreviation wf_PostCondition := (wf_PostCondition wf_Principal wf_AssetInfo).
Local Abbreviation wf_StacksTransaction :=
  (wf_StacksTransaction wf_Principal wf_AssetInfo wf_Authorization wf_Payload).


Ltac pc_fields :=
  cbn [postConditionType principal conditionCode assetInfo assetName amount
       set_postConditionType set_principal set_conditionCode set_assetInfo
       set_assetName set_amount new_PostCondition].

Ltac pc_test E :=
  pc_fields; rewrite <- ?E, ?strict_eq_same, ?strict_eq_diff by congruence; cbn [orb].

Lemma PostCondition_roundtrip_method (x : PostCondition) :
  wf_PostCondition x ->
  exists bs, PostCondition_serialize x = (Ok bs, x) /\
    forall ty0, runs PostCondition_deserialize bs
                  (new_PostCondition ty0 None None None None None) tt x.
Proof.
  destruct postcondition_distinct as (D1 & D2 & D3).
  destruct postcondition_tags as (T1 & T2 & T3).
  intros [p c a Hp Hc Ha|p c a i Hp Hc Ha Hi|p c i n Hp Hc Hi Hn].
  - destruct (Principal_lawful p Hp) as (bp & Ep & Pp).
    destruct (fromHex_tag _ T1) as (t & Et & Ft).
    destruct (fromHex_tag _ Hc) as (cb & Ecb & Fcb).
    exists ([t] ++ bp ++ [cb] ++ N_to_be 8 a). split.
    + unfold PostCondition_serialize, new_STXPostCondition.
      unfold bind, get, required, lift, ret. pc_fields.
      rewrite Ep, !strict_eq_same, !strict_eq_diff by congruence.
      cbn [orb]. rewrite toArrayLike_8 by done.
      flatten_buffers. by rewrite Ft, Fcb.
    + intros ty0. unfold PostCondition_deserialize, new_STXPostCondition.
      run_read ltac:(by apply (parses_read_n 1)). run_pure.
      run_read ltac:(exact Pp). run_pure.
      run_pure. pc_test Et. run_pure.
      run_pure. pc_test Et. run_pure.
      run_read ltac:(by apply (parses_read_n 1)). run_pure.
      run_pure. pc_test Et.
      run_last ltac:(apply parses_read_n, length_N_to_be).
      rewrite new_BigNum_hex_be, <- Ecb by done.
      by apply runs_assign_eq.
  - destruct (Principal_lawful p Hp) as (bp & Ep & Pp).
    destruct (AssetInfo_lawful i Hi) as (bi & Ei & Pi).
    destruct (fromHex_tag _ T2) as (t & Et & Ft).
    destruct (fromHex_tag _ Hc) as (cb & Ecb & Fcb).
    exists ([t] ++ bp ++ bi ++ [cb] ++ N_to_be 8 a). split.
    + unfold PostCondition_serialize, new_FungiblePostCondition.
      unfold bind, get, required, lift, ret. pc_fields.
      rewrite Ep, Ei, !strict_eq_same, !strict_eq_diff by congruence.
      cbn [orb]. rewrite toArrayLike_8 by done.
      flatten_buffers. by rewrite Ft, Fcb.
    + intros ty0. unfold PostCondition_deserialize, new_FungiblePostCondition.
      run_read ltac:(by apply (parses_read_n 1)). run_pure.
      run_read ltac:(exact Pp). run_pure.
      run_pure. pc_test Et.
      eapply runs_bind; [run_last ltac:(exact Pi); apply runs_assign|].
      run_pure. pc_test Et. run_pure.
      run_read ltac:(by apply (parses_read_n 1)). run_pure.
      run_pure. pc_test Et.
      run_last ltac:(apply parses_read_n, length_N_to_be).
      rewrite new_BigNum_hex_be, <- Ecb by done.
      by apply runs_assign_eq.
  - destruct (Principal_lawful p Hp) as (bp & Ep & Pp).
    destruct (AssetInfo_lawful i Hi) as (bi & Ei & Pi).
    destruct (LengthPrefixedString_lawful (new_LengthPrefixedString n) Hn)
      as (bn & En & Pn).
    destruct (fromHex_tag _ T3) as (t & Et & Ft).
    destruct (fromHex_tag _ Hc) as (cb & Ecb & Fcb).
    exists ([t] ++ bp ++ bi ++ bn ++ [cb]). split.
    + unfold PostCondition_serialize, new_NonFungiblePostCondition.
      unfold bind, get, required, lift, ret. pc_fields.
      rewrite Ep, Ei, En, !strict_eq_same, !strict_eq_diff by congruence.
      cbn [orb]. flatten_buffers. by rewrite Ft, Fcb.
    + intros ty0. unfold PostCondition_deserialize, new_NonFungiblePostCondition.
      run_read ltac:(by apply (parses_read_n 1)). run_pure.
      run_read ltac:(exact Pp). run_pure.
      run_pure. pc_test Et.
      eapply runs_bind; [run_last ltac:(exact Pi); apply runs_assign|].
      run_pure. pc_test Et.
      eapply runs_bind; [run_last ltac:(exact Pn); apply runs_assign|].
      run_last ltac:(by apply (parses_read_n 1)).
      run_pure. run_pure. pc_test Et.
      rewrite <- Ecb. by apply runs_ret_eq.
Qed.

Ltac tx_fields :=
  cbn [version chainId auth anchorMode payload postConditionMode postConditions
       set_version set_chainId set_auth set_anchorMode set_payload
       set_postConditionMode set_postConditions].

Lemma PostCondition_lawful : Lawful wf_PostCondition.
Proof.
  intros x Hx.
  destruct (PostCondition_roundtrip_method x Hx) as (bs & Es & Hd).
  exists bs. cbn [serialize deserialize PostCondition_message].
  rewrite Es. split; [done|]. apply static_deserialize_parses, Hd.
Qed.

Lemma StacksTransaction_roundtrip_method (x : StacksTransaction) :
  wf_StacksTransaction x ->
  exists bs, StacksTransaction_serialize x = (Ok bs, x) /\
    forall this0, runs StacksTransaction_deserialize bs this0 tt x.
Proof.
  intros [Hv (cb & Ec & Lc) (a & Ea & Ha) (m & Em & Hm) Hpm Hpcs Hlen (p & Ep & Hp)].
  destruct x as [xv xc xa xm xp xpm xpcs]. simpl in *. subst.
  destruct (Authorization_lawful a Ha) as (ba & Sa & Pa).
  destruct (Payload_lawful p Hp) as (bp & Sp & Pp).
  destruct (LengthPrefixedList_lawful wf_PostCondition PostCondition_lawful xpcs Hpcs Hlen)
    as (bl & Sl & Pl).
  destruct (fromHex_tag _ Hm) as (mb & Emb & Fmb).
  destruct (fromHex_tag _ Hpm) as (pmb & Epmb & Fpmb).
  assert (exists v vb, xv = Some v /\ v = toHex [vb] /\
            (if bool_decide (toHex [vb] = TransactionVersion_Mainnet)
             then TransactionVersion_Mainnet else TransactionVersion_Testnet) = v)
    as (v & vb & -> & Ev & Hvb).
  { destruct version_tags as [[b1 E1] [b2 E2]].
    destruct Hv as [->| ->].
    - exists TransactionVersion_Mainnet, b1. rewrite <- E1.
      by rewrite bool_decide_eq_true_2.
    - exists TransactionVersion_Testnet, b2. rewrite <- E2.
      rewrite bool_decide_eq_false_2; [done|]. intros E. by apply version_distinct. }
  exists ([vb] ++ cb ++ ba ++ [mb] ++ [pmb] ++ bl ++ bp). split.
  - unfold StacksTransaction_serialize.
    unfold bind, get, required, lift, ret. tx_fields.
    rewrite Sa, Sl, Sp. flatten_buffers.
    by rewrite Fmb, Fpmb, fromHex_toHex, Ev, fromHex_toHex.
  - intros this0. unfold StacksTransaction_deserialize.
    run_read ltac:(by apply (parses_read_n 1)). run_pure.
    run_read ltac:(by apply (parses_read_n 4)). run_pure.
    run_read ltac:(exact Pa). run_pure.
    run_read ltac:(by apply (parses_read_n 1)). run_pure.
    run_read ltac:(by apply (parses_read_n 1)). run_pure.
    run_read ltac:(exact Pl). run_pure.
    run_last ltac:(exact Pp).
    rewrite Hvb, <- Emb, <- Epmb.
    by apply runs_assign_eq.
Qed.

(** [serialize] only reads its receiver. *)
Lemma PostCondition_serialize_frame (x : PostCondition) :
  snd (PostCondition_serialize x) = x.
Proof.
  unfold PostCondition_serialize, bind, get, required, lift, ret, throw.
  destruct (postConditionType x) as [t|]; [|done].
  destruct (principal x) as [p|]; [|done].
  destruct (serialize p); [|done].
  destruct (strict_eq (Some t) PostConditionType_Fungible
            || strict_eq (Some t) PostConditionType_NonFungible).
  all: destruct (strict_eq (Some t) PostConditionType_NonFungible).
  all: destruct (strict_eq (Some t) PostConditionType_STX
                 || strict_eq (Some t) PostConditionType_Fungible).
  all: destruct (assetInfo x) as [ai|]; [destruct (serialize ai)|]; try done.
  all: destruct (assetName x) as [an|]; [destruct (serialize an)|]; try done.
  all: destruct (conditionCode x); try done.
  all: destruct (amount x) as [am|]; [destruct (toArrayLike am 8)|]; done.
Qed.

(** The static [deserialize] of both classes is lawful. *)
Lemma StacksTransaction_lawful : Lawful wf_StacksTransaction.
Proof.
  intros x Hx.
  destruct (StacksTransaction_roundtrip_method x Hx) as (bs & Es & Hd).
  exists bs. cbn [serialize deserialize StacksTransaction_message].
  rewrite Es. split; [done|]. apply static_deserialize_parses, Hd.
Qed.

(** C1. Round trip: a well-formed post-condition and a well-formed
    transaction serialize, [serialize] leaves them as they are, and
    [deserialize], run on a fresh object with the cursor in front of
    the bytes [serialize] produced, rebuilds an object equal to the
    original in every field and moves the cursor past exactly those
    bytes, to whatever follows them in the buffer. *)
Theorem serialize_deserialize_roundtrip :
  (forall x : PostCondition, wf_PostCondition x ->
     exists bs, PostCondition_serialize x = (Ok bs, x) /\
       forall ty0 r rest, remaining r = bs ++ rest ->
         PostCondition_deserialize
           (new_PostCondition ty0 None None None None None, r)
         = (Ok tt, (x, advance (length bs) r)) /\
         remaining (advance (length bs) r) = rest) /\
  (forall x : StacksTransaction, wf_StacksTransaction x ->
     exists bs, StacksTransaction_serialize x = (Ok bs, x) /\
       forall this0 r rest, remaining r = bs ++ rest ->
         StacksTransaction_deserialize (this0, r)
         = (Ok tt, (x, advance (length bs) r)) /\
         remaining (advance (length bs) r) = rest).
Proof.
  split; intros x Hx.
  - destruct (PostCondition_roundtrip_method x Hx) as (bs & Es & Hd).
    exists bs. split; [done|]. intros ty0 r rest E. split.
    + by apply (Hd ty0 r rest).
    + by apply remaining_advance_app.
  - destruct (StacksTransaction_roundtrip_method x Hx) as (bs & Es & Hd).
    exists bs. split; [done|]. intros this0 r rest E. split.
    + by apply (Hd this0 r rest).
    + by apply remaining_advance_app.
Qed.

Lemma Ok_inj {A} (a b : A) : Ok a = Ok b -> a = b.
Proof. by intros [= ->]. Qed.

(** What [serialize] returns for an STX or fungible post-condition
    ends with the eight bytes of its amount. *)
Lemma PostCondition_serialize_amount (x : PostCondition) bs :
  postConditionType x = Some PostConditionType_STX \/
  postConditionType x = Some PostConditionType_Fungible ->
  fst (PostCondition_serialize x) = Ok bs ->
  exists a pre, amount x = Some a /\ a < 2 ^ 64 /\ bs = pre ++ N_to_be 8 a.
Proof.
  intros Ht.
  assert (strict_eq (postConditionType x) PostConditionType_STX
          || strict_eq (postConditionType x) PostConditionType_Fungible = true) as Hb.
  { destruct Ht as [-> | ->]; rewrite strict_eq_same; [done|apply orb_true_r]. }
  unfold PostCondition_serialize, bind, get, required, lift, ret, throw.
  destruct (postConditionType x) as [t|]; [|done].
  destruct (principal x) as [p|]; [|done].
  destruct (serialize p) as [bp|]; [|done].
  rewrite Hb.
  destruct (strict_eq (Some t) PostConditionType_Fungible
            || strict_eq (Some t) PostConditionType_NonFungible).
  all: destruct (strict_eq (Some t) PostConditionType_NonFungible).
  all: destruct (assetInfo x) as [ai|]; [destruct (serialize ai)|]; try done.
  all: destruct (assetName x) as [an|]; [destruct (serialize an)|]; try done.
  all: destruct (conditionCode x); try done.
  all: destruct (amount x) as [am|]; try done.
  all: unfold toArrayLike; destruct (decide (am < 256 ^ N.of_nat 8)) as [Ham|]; try done.
  all: cbn [fst]; intros <-%Ok_inj; exists am.
  all: unfold appendHexString, push, concatBuffer; rewrite concat_app.
  all: eexists; split; [done|]; split; [exact Ham|].
  all: cbn [concat]; by rewrite app_nil_r.
Qed.

Ltac finish_run := let E := fresh "E" in intros E; simplify_eq; done.

(** Reading a non-fungible post-condition never assigns [amount]. *)
Lemma PostCondition_deserialize_amount (this0 : PostCondition) r res y r' :
  PostCondition_deserialize (this0, r) = (res, (y, r')) ->
  postConditionType y = Some PostConditionType_NonFungible ->
  amount y = amount this0.
Proof.
  destruct postcondition_distinct as (D1 & D2 & D3).
  unfold PostCondition_deserialize, bind, on_reader, assign, this_, ret.
  cbn [fst snd]. destruct (read 1 r) as [[b|?] r1]; [|finish_run].
  cbn [fst snd]. destruct (deserialize r1) as [[p|?] r2]; [|finish_run].
  cbn [fst snd]. pc_fields.
  assert (forall z : PostCondition,
            postConditionType z = Some (toHex b) ->
            postConditionType z = Some PostConditionType_NonFungible ->
            strict_eq (Some (toHex b)) PostConditionType_STX
            || strict_eq (Some (toHex b)) PostConditionType_Fungible = false) as Hno.
  { intros z -> [= ->]. by rewrite !strict_eq_diff by congruence. }
  repeat first
    [ progress (cbn [fst snd]; pc_fields)
    | match goal with
      | |- context [read ?n ?r] => destruct (read n r) as [[?|?] ?]
      | |- context [@deserialize ?T ?I ?r] => destruct (@deserialize T I r) as [[?|?] ?]
      | |- context [if ?c then _ else _] => destruct c eqn:?
      end ].
  all: intros E Ht; simplify_eq; pc_fields; try done.
  all: match type of Ht with
       | postConditionType ?z = _ => by specialize (Hno z eq_refl Ht)
       end.
Qed.

(** C2. A non-fungible post-condition has no amount after
    construction, whatever the arguments, and a fresh object that
    [deserialize] fills from its serialization, or from any bytes it
    reads as a non-fungible post-condition, has none either; an STX
    or fungible post-condition that [serialize] accepts has its amount
    present and below [2^64], its serialization ends with the eight
    big-endian bytes of the amount, and reading it back yields the
    same number. *)
Theorem amount_absent_or_exact :
  (forall p c i n,
     amount (new_NonFungiblePostCondition p c i n : PostCondition) = None) /\
  (forall x : PostCondition,
     wf_PostCondition x ->
     postConditionType x = Some PostConditionType_NonFungible ->
     amount x = None /\
     exists bs, PostCondition_serialize x = (Ok bs, x) /\
       forall ty0 r rest, remaining r = bs ++ rest ->
         exists y : PostCondition,
           PostCondition_deserialize
             (new_PostCondition ty0 None None None None None, r)
           = (Ok tt, (y, advance (length bs) r)) /\
           amount y = None) /\
  (forall ty0 r res (y : PostCondition) r',
     PostCondition_deserialize
       (new_PostCondition ty0 None None None None None, r) = (res, (y, r')) ->
     postConditionType y = Some PostConditionType_NonFungible ->
     amount y = None) /\
  (forall (x : PostCondition) bs,
     postConditionType x = Some PostConditionType_STX \/
     postConditionType x = Some PostConditionType_Fungible ->
     fst (PostCondition_serialize x) = Ok bs ->
     exists a pre,
       amount x = Some a /\ a < 2 ^ 64 /\
       bs = pre ++ N_to_be 8 a /\ length (N_to_be 8 a) = 8%nat /\
       be_to_N (N_to_be 8 a) = a) /\
  (forall x : PostCondition,
     wf_PostCondition x ->
     postConditionType x = Some PostConditionType_STX \/
     postConditionType x = Some PostConditionType_Fungible ->
     exists a bs,
       amount x = Some a /\ PostCondition_serialize x = (Ok bs, x) /\
       forall ty0 r rest, remaining r = bs ++ rest ->
         exists y : PostCondition,
           PostCondition_deserialize
             (new_PostCondition ty0 None None None None None, r)
           = (Ok tt, (y, advance (length bs) r)) /\
           amount y = Some a).
Proof.
  destruct postcondition_distinct as (D1 & D2 & D3).
  split; [done|]. split; [|split; [|split]].
  - intros x Hx Ht.
    assert (amount x = None) as Ea by (destruct Hx; cbn in Ht |- *; congruence).
    split; [done|].
    destruct (PostCondition_roundtrip_method x Hx) as (bs & Es & Hd).
    exists bs. split; [done|]. intros ty0 r rest E. exists x. split; [|done].
    by apply (Hd ty0 r rest).
  - intros ty0 r res y r' E Ht.
    by rewrite (PostCondition_deserialize_amount _ _ _ _ _ E Ht).
  - intros x bs Ht Es.
    destruct (PostCondition_serialize_amount x bs Ht Es) as (a & pre & Ea & Ha & ->).
    exists a, pre. split; [done|]. split; [done|]. split; [done|].
    split; [apply length_N_to_be|by apply be_to_N_to_be_small].
  - intros x Hx Ht.
    destruct (PostCondition_roundtrip_method x Hx) as (bs & Es & Hd).
    assert (exists a, amount x = Some a) as [a Ea].
    { destruct Hx; cbn in Ht |- *; eauto. destruct Ht; congruence. }
    exists a, bs. repeat split; try done.
    intros ty0 r rest E. exists x. split; [|done]. by apply (Hd ty0 r rest).
Qed.

(** C3. With every field present, [serialize] returns bytes exactly
    when the authorization, the post-condition list and the payload
    serialize, and the bytes are then the version, the chain id, the
    authorization, the anchor mode, the post-condition mode, the
    post-condition list and the payload, in this order and with
    nothing else.  No field is left out: a version, an anchor mode and
    a post-condition mode that are one-byte tags contribute that byte
    each, a chain id that is the text of four bytes contributes these
    four bytes, and the post-condition list contributes at least its
    four-byte count, also when it is empty. *)
Theorem serialize_field_order (x : StacksTransaction) v c a m p :
  version x = Some v -> chainId x = Some c -> auth x = Some a ->
  anchorMode x = Some m -> payload x = Some p ->
  forall bs,
    (fst (StacksTransaction_serialize x) = Ok bs <->
     exists ba bl bp,
       serialize a = Ok ba /\
       LengthPrefixedList_serialize (postConditions x) = Ok bl /\
       serialize p = Ok bp /\
       bs = fromHex v ++ fromHex c ++ ba ++ fromHex m
              ++ fromHex (postConditionMode x) ++ bl ++ bp) /\
    (forall vb cb mb pb,
       v = toHex [vb] -> c = toHex cb -> length cb = 4%nat ->
       m = toHex [mb] -> postConditionMode x = toHex [pb] ->
       fst (StacksTransaction_serialize x) = Ok bs <->
       exists ba items bp,
         serialize a = Ok ba /\
         serialize_items (postConditions x) = Ok items /\
         serialize p = Ok bp /\
         bs = [vb] ++ cb ++ ba ++ [mb] ++ [pb]
                ++ (N_to_be 4 (N.of_nat (length (postConditions x))) ++ items) ++ bp /\
         length bs
         = (1 + 4 + length ba + 1 + 1 + (4 + length items) + length bp)%nat).
Proof.
  intros Ev Ec Ea Em Ep bs.
  assert (fst (StacksTransaction_serialize x) = Ok bs <->
          exists ba bl bp,
            serialize a = Ok ba /\
            LengthPrefixedList_serialize (postConditions x) = Ok bl /\
            serialize p = Ok bp /\
            bs = fromHex v ++ fromHex c ++ ba ++ fromHex m
                   ++ fromHex (postConditionMode x) ++ bl ++ bp) as Hgen.
  { unfold StacksTransaction_serialize, bind, get, required, lift, ret, throw.
    rewrite Ev, Ec, Ea, Em, Ep.
    destruct (serialize a) as [ba|ea].
    2:{ cbn [fst]. split; [done|]. by intros (? & ? & ? & ? & _). }
    destruct (LengthPrefixedList_serialize (postConditions x)) as [bl|el].
    2:{ cbn [fst]. split; [done|]. by intros (? & ? & ? & _ & ? & _). }
    destruct (serialize p) as [bp|ep].
    2:{ cbn [fst]. split; [done|]. by intros (? & ? & ? & _ & _ & ? & _). }
    cbn [fst]. flatten_buffers. split.
    - intros <-%Ok_inj. by exists ba, bl, bp.
    - intros (? & ? & ? & ?%Ok_inj & ?%Ok_inj & ?%Ok_inj & ->). by subst. }
  split; [exact Hgen|].
  intros vb cb mb pb Hv Hc Lc Hm Hp. rewrite Hgen.
  rewrite Hv, Hc, Hm, Hp, !fromHex_toHex.
  unfold LengthPrefixedList_serialize. split.
  - intros (ba & bl & bp & Sa & Sl & Sp & ->).
    destruct (serialize_items (postConditions x)) as [items|] eqn:Si; [|done].
    cbn [rbind] in Sl. apply Ok_inj in Sl. subst bl.
    exists ba, items, bp. split; [done|]. split; [done|]. split; [done|].
    split; [done|].
    rewrite !length_app, length_N_to_be, Lc. cbn [length]. lia.
  - intros (ba & items & bp & Sa & Si & Sp & -> & _).
    exists ba, (N_to_be 4 (N.of_nat (length (postConditions x))) ++ items), bp.
    rewrite Si. cbn [rbind]. by repeat split.
Qed.

Lemma StacksTransaction_serialize_frame (x : StacksTransaction) :
  snd (StacksTransaction_serialize x) = x.
Proof.
  unfold StacksTransaction_serialize, bind, get, required, lift, ret, throw.
  destruct (version x); [|done]. destruct (chainId x); [|done].
  destruct (auth x) as [a|]; [|done]. destruct (anchorMode x); [|done].
  destruct (payload x) as [p|]; [|done].
  destruct (serialize a); [|done].
  destruct (LengthPrefixedList_serialize (postConditions x)); [|done].
  by destruct (serialize p).
Qed.

Lemma StacksTransaction_serialize_absent (x : StacksTransaction) f :
  StacksTransaction_first_absent x = Some f ->
  StacksTransaction_serialize x = (Throw (undefined_error f), x).
Proof.
  unfold StacksTransaction_first_absent, StacksTransaction_serialize.
  unfold bind, get, required, lift, ret, throw.
  destruct (version x); [|by intros [= <-]]. destruct (chainId x); [|by intros [= <-]].
  destruct (auth x); [|by intros [= <-]]. destruct (anchorMode x); [|by intros [= <-]].
  by destruct (payload x); [|by intros [= <-]].
Qed.


(** No required field is absent exactly when the discriminant, the
    principal and the condition code are present, and so are the asset
    info, the asset name and the amount where the variant has them. *)
Lemma PostCondition_first_absent_None (x : PostCondition) :
  PostCondition_first_absent x = None <->
  postConditionType x <> None /\ principal x <> None /\ conditionCode x <> None /\
  (postConditionType x = Some PostConditionType_Fungible \/
   postConditionType x = Some PostConditionType_NonFungible -> assetInfo x <> None) /\
  (postConditionType x = Some PostConditionType_NonFungible -> assetName x <> None) /\
  (postConditionType x = Some PostConditionType_STX \/
   postConditionType x = Some PostConditionType_Fungible -> amount x <> None).
Proof.
  unfold PostCondition_first_absent, strict_eq.
  destruct (postConditionType x) as [t|]; cbn [absent]; [|by split; [|intros []]].
  destruct (principal x) as [p|]; cbn [absent]; [|by split; [|intros (_ & ? & _)]].
  repeat case_bool_decide; cbn [orb andb].
  all: destruct (assetInfo x), (assetName x), (conditionCode x), (amount x); cbn [absent].
  all: split; [try done|intros (_ & _ & Hc & Hi & Hn & Ha); try done].
  all: try (intros _; repeat split; try done; try (intros [?|?]; congruence); congruence).
  all: try (exfalso; first [by apply Hi; auto|by apply Hn; auto|by apply Ha; auto]).
Qed.


Local Abbreviation SpendingCondition := (@SpendingCondition MessageSignature).
Local Abbreviation Authorization := (@Authorization MessageSignature).
Local Abbreviation NextSignatureCall := (@NextSignatureCall StacksPrivateKey).

Lemma set_spendingCondition_same (a : Authorization) c :
  spendingCondition a = Some c -> set_spendingCondition (Some c) a = a.
Proof. destruct a. cbn. by intros ->. Qed.

Lemma set_auth_same (x : StacksTransaction) a :
  auth x = Some a -> set_auth (Some a) x = x.
Proof. destruct x. cbn. by intros ->. Qed.

(** C5. Signing with a required input absent.  [signNextOrigin]
    throws when the authorization, its spending condition, its
    authorization type, or the fee rate or the nonce of the condition
    is absent, and [signAndAppend] throws when the fee rate or the
    nonce of its condition is absent.  In each case the error names the
    absent input, no call of [nextSignature] has been made, and the
    transaction, respectively the condition, is as it was: no signature
    has been stored. *)
Theorem sign_missing_input :
  (forall (this : StacksTransaction) (calls : list NextSignatureCall) sigHash privateKey,
     (auth this = None ->
      StacksTransaction_signNextOrigin sigHash privateKey (this, calls)
      = (Throw (undefined_error "auth"), (this, calls))) /\
     (forall a, auth this = Some a ->
        (spendingCondition a = None ->
         StacksTransaction_signNextOrigin sigHash privateKey (this, calls)
         = (Throw (undefined_error "auth.spendingCondition"), (this, calls))) /\
        (forall c, spendingCondition a = Some c ->
           (authType a = None ->
            StacksTransaction_signNextOrigin sigHash privateKey (this, calls)
            = (Throw (undefined_error "auth.authType"), (this, calls))) /\
           (forall t, authType a = Some t ->
              (feeRate c = None ->
               StacksTransaction_signNextOrigin sigHash privateKey (this, calls)
               = (Throw (undefined_error "condition.feeRate"), (this, calls))) /\
              (forall f, feeRate c = Some f -> nonce c = None ->
               StacksTransaction_signNextOrigin sigHash privateKey (this, calls)
               = (Throw (undefined_error "condition.nonce"), (this, calls))))))) /\
  (forall (condition : SpendingCondition) (calls : list NextSignatureCall)
          curSigHash authType_ privateKey,
     (feeRate condition = None ->
      StacksTransaction_signAndAppend curSigHash authType_ privateKey (condition, calls)
      = (Throw (undefined_error "condition.feeRate"), (condition, calls))) /\
     (forall f, feeRate condition = Some f -> nonce condition = None ->
      StacksTransaction_signAndAppend curSigHash authType_ privateKey (condition, calls)
      = (Throw (undefined_error "condition.nonce"), (condition, calls)))).
Proof.
  split.
  - intros this calls sigHash privateKey.
    unfold StacksTransaction_signNextOrigin, StacksTransaction_signAndAppend.
    unfold bind, this_, required, ret, throw. cbn [fst snd].
    split; [by intros ->|]. intros a Ha. rewrite Ha.
    split; [by intros ->|]. intros c Hc. rewrite Hc.
    split; [by intros ->|]. intros t ->.
    split.
    + intros ->. cbn [fst snd].
      by rewrite set_spendingCondition_same, set_auth_same.
    + intros f -> ->. cbn [fst snd].
      by rewrite set_spendingCondition_same, set_auth_same.
  - intros condition calls curSigHash authType_ privateKey.
    unfold StacksTransaction_signAndAppend.
    unfold bind, this_, required, ret, throw. cbn [fst snd].
    split; [by intros ->|]. by intros f -> ->.
Qed.

(** C7. Signing a single-sig condition whose fee rate and nonce are
    present.  [signAndAppend] makes one call of [nextSignature], on
    the current sighash, the authorization type, the fee rate and the
    nonce of the condition, and the private key.  When the call
    returns a signature and a next sighash, the signature becomes the
    [signature] field of the condition, nothing else of the condition
    changes, and the next sighash is returned; when the call throws,
    the condition is as it was. *)
Theorem signAndAppend_single_sig (condition : SpendingCondition)
    (calls : list NextSignatureCall) curSigHash authType_ privateKey f n :
  singleSig condition = true ->
  feeRate condition = Some f -> nonce condition = Some n ->
  StacksTransaction_signAndAppend curSigHash authType_ privateKey (condition, calls)
  = match nextSignature curSigHash authType_ f n privateKey with
    | Ok (nextSig, nextSigHash) =>
        (Ok nextSigHash,
         (set_signature nextSig condition,
          calls ++ [mkNextSignatureCall curSigHash authType_ f n privateKey]))
    | Throw msg =>
        (Throw msg,
         (condition,
          calls ++ [mkNextSignatureCall curSigHash authType_ f n privateKey]))
    end /\
  (forall nextSig nextSigHash,
     nextSignature curSigHash authType_ f n privateKey = Ok (nextSig, nextSigHash) ->
     exists condition',
       StacksTransaction_signAndAppend curSigHash authType_ privateKey
         (condition, calls)
       = (Ok nextSigHash,
          (condition',
           calls ++ [mkNextSignatureCall curSigHash authType_ f n privateKey])) /\
       signature condition' = nextSig /\
       addressHashMode condition' = addressHashMode condition /\
       signerAddress condition' = signerAddress condition /\
       nonce condition' = Some n /\
       feeRate condition' = Some f /\
       pubKeyEncoding condition' = pubKeyEncoding condition) /\
  (forall msg,
     nextSignature curSigHash authType_ f n privateKey = Throw msg ->
     StacksTransaction_signAndAppend curSigHash authType_ privateKey (condition, calls)
     = (Throw msg,
        (condition,
         calls ++ [mkNextSignatureCall curSigHash authType_ f n privateKey]))).
Proof.
  intros Hs Hf Hn.
  assert (StacksTransaction_signAndAppend curSigHash authType_ privateKey
            (condition, calls)
          = match nextSignature curSigHash authType_ f n privateKey with
            | Ok (nextSig, nextSigHash) =>
                (Ok nextSigHash,
                 (set_signature nextSig condition,
                  calls ++ [mkNextSignatureCall curSigHash authType_ f n privateKey]))
            | Throw msg =>
                (Throw msg,
                 (condition,
                  calls ++ [mkNextSignatureCall curSigHash authType_ f n privateKey]))
            end) as E.
  { unfold StacksTransaction_signAndAppend, call_nextSignature.
    unfold bind, this_, required, assign, ret, throw. cbn [fst snd].
    rewrite Hf, Hn. cbn [fst snd].
    destruct (nextSignature curSigHash authType_ f n privateKey) as [[sig next]|msg];
      [|done].
    by rewrite Hs. }
  split; [exact E|]. split.
  - intros nextSig nextSigHash En. rewrite En in E.
    exists (set_signature nextSig condition). split; [exact E|].
    cbn [set_signature signature addressHashMode signerAddress nonce feeRate
         pubKeyEncoding].
    by rewrite Hf, Hn.
  - intros msg En. by rewrite En in E.
Qed.

(** The condition that [signNextOrigin] passes is the one of
    [this.auth]: what [signAndAppend] stores is stored there. *)
Lemma signNextOrigin_single_sig (this : StacksTransaction)
    (calls : list NextSignatureCall) sigHash privateKey a c t f n :
  auth this = Some a -> spendingCondition a = Some c -> authType a = Some t ->
  singleSig c = true -> feeRate c = Some f -> nonce c = Some n ->
  StacksTransaction_signNextOrigin sigHash privateKey (this, calls)
  = match nextSignature sigHash t f n privateKey with
    | Ok (nextSig, nextSigHash) =>
        (Ok nextSigHash,
         (set_auth (Some (set_spendingCondition (Some (set_signature nextSig c)) a)) this,
          calls ++ [mkNextSignatureCall sigHash t f n privateKey]))
    | Throw msg =>
        (Throw msg, (this, calls ++ [mkNextSignatureCall sigHash t f n privateKey]))
    end.
Proof.
  intros Ha Hc Ht Hs Hf Hn.
  unfold StacksTransaction_signNextOrigin, StacksTransaction_signAndAppend.
  unfold call_nextSignature, bind, this_, required, assign, ret, throw. cbn [fst snd].
  rewrite Ha, Hc, Ht, Hf, Hn. cbn [fst snd].
  destruct (nextSignature sigHash t f n privateKey) as [[sig next]|msg].
  - by rewrite Hs.
  - by rewrite set_spendingCondition_same, set_auth_same.
Qed.

(** C6. [signBegin] on a transaction whose authorization is present
    behaves as [txid] on a copy of the transaction whose authorization
    is the one [intoInitialSighashAuth] returns: it returns the
    transaction id of the serialization of that copy, or throws what
    [intoInitialSighashAuth], or the serialization of the copy,
    throws.  The copy has the initial-sighash authorization for its
    authorization and the fields of the transaction for all the others,
    so that the bytes that are hashed are the version, the chain id,
    the serialization of the initial-sighash authorization, the anchor
    mode, the post-condition mode, the post-condition list and the
    payload: the authorization of the transaction is not among them.
    The transaction it is called on is as it was. *)
Theorem signBegin_txid_of_stripped_copy (this : StacksTransaction) a :
  auth this = Some a ->
  snd (StacksTransaction_signBegin this) = this /\
  fst (StacksTransaction_signBegin this)
  = match intoInitialSighashAuth a with
    | (Ok initial, _) =>
        match fst (StacksTransaction_serialize (set_auth (Some initial) this)) with
        | Ok serialized => Ok (txidFromData serialized)
        | Throw msg => Throw msg
        end
    | (Throw msg, _) => Throw msg
    end /\
  (forall initial a',
     intoInitialSighashAuth a = (Ok initial, a') ->
     let tx := set_auth (Some initial) this in
     auth tx = Some initial /\
     version tx = version this /\ chainId tx = chainId this /\
     anchorMode tx = anchorMode this /\ payload tx = payload this /\
     postConditionMode tx = postConditionMode this /\
     postConditions tx = postConditions this) /\
  (forall initial a' v c m p,
     intoInitialSighashAuth a = (Ok initial, a') ->
     version this = Some v -> chainId this = Some c ->
     anchorMode this = Some m -> payload this = Some p ->
     fst (StacksTransaction_signBegin this)
     = rbind (serialize initial) (fun bi =>
       rbind (LengthPrefixedList_serialize (postConditions this)) (fun bl =>
       rbind (serialize p) (fun bp =>
         Ok (txidFromData
               (fromHex v ++ fromHex c ++ bi ++ fromHex m
                  ++ fromHex (postConditionMode this) ++ bl ++ bp)))))).
Proof.
  intros Ha.
  assert (StacksTransaction_signBegin this
          = (match intoInitialSighashAuth a with
             | (Ok initial, _) =>
                 match fst (StacksTransaction_serialize (set_auth (Some initial) this)) with
                 | Ok serialized => Ok (txidFromData serialized)
                 | Throw msg => Throw msg
                 end
             | (Throw msg, _) => Throw msg
             end, this)) as E.
  { unfold StacksTransaction_signBegin, StacksTransaction_txid, cloneDeep, on_local.
    unfold bind, get, required, ret, throw. rewrite Ha.
    destruct (intoInitialSighashAuth a) as [[initial|msg] a']; [|done].
    cbn [fst snd].
    by destruct (StacksTransaction_serialize (set_auth (Some initial) this))
      as [[serialized|msg] tx']. }
  rewrite E. cbn [fst snd]. split; [done|]. split; [done|]. split.
  - intros initial a' _. cbn zeta. by tx_fields.
  - intros initial a' v c m p Hi Hv Hc Hm Hp. rewrite Hi.
    unfold StacksTransaction_serialize, bind, get, required, lift, ret, throw.
    tx_fields. rewrite Hv, Hc, Hm, Hp.
    destruct (serialize initial) as [bi|]; [|done]. cbn [rbind].
    destruct (LengthPrefixedList_serialize (postConditions this)) as [bl|]; [|done].
    cbn [rbind]. destruct (serialize p) as [bp|]; [|done]. cbn [rbind fst].
    by flatten_buffers.
Qed.

Ltac step_tx :=
  cbn [fst snd];
  match goal with
  | |- context [read ?n ?r] => destruct (read n r) as [[?|?] ?]
  | |- context [@deserialize ?T ?I ?r] => destruct (@deserialize T I r) as [[?|?] ?]
  | |- context [@LengthPrefixedList_deserialize ?T ?I ?r] =>
      destruct (@LengthPrefixedList_deserialize T I r) as [[?|?] ?]
  end;
  cbn [fst snd].

(** C8. [deserialize] reads the version from the first byte under the
    cursor by comparing its hexadecimal text with the mainnet tag: the
    version it assigns is mainnet when they are equal and testnet for
    every other byte.  No byte makes this step fail: whatever the
    first byte is, the four bytes after it are read and assigned as
    the chain id.  Both fields hold these values when the call ends,
    whether the rest of the buffer decodes or not. *)
Theorem deserialize_version_lenient (this0 : StacksTransaction) r b rest :
  remaining r = b :: rest ->
  forall res (y : StacksTransaction) r',
    StacksTransaction_deserialize (this0, r) = (res, (y, r')) ->
    (toHex [b] = TransactionVersion_Mainnet ->
     version y = Some TransactionVersion_Mainnet) /\
    (toHex [b] <> TransactionVersion_Mainnet ->
     version y = Some TransactionVersion_Testnet) /\
    (forall c rest', rest = c ++ rest' -> length c = 4%nat ->
     chainId y = Some (toHex c)).
Proof.
  intros Hr res y r'.
  unfold StacksTransaction_deserialize, bind, on_reader, assign, this_, ret.
  cbn [fst snd].
  rewrite (read_exact 1 r [b] rest) by done.
  cbn [fst snd].
  assert (remaining (advance 1 r) = rest) as Hr1.
  { by apply (remaining_advance_app r [b] rest). }
  destruct (read 4 (advance 1 r)) as [[c4|e4] r2] eqn:E4.
  - cbn [fst snd].
    assert (forall c rest', rest = c ++ rest' -> length c = 4%nat -> c4 = c) as Hc.
    { intros c rest' -> Lc.
      rewrite (read_exact 4 (advance 1 r) c rest') in E4 by done. congruence. }
    repeat step_tx.
    all: intros E; simplify_eq; tx_fields.
    all: split; [intros ->; by rewrite bool_decide_eq_true_2|].
    all: split; [intros Hne; by rewrite bool_decide_eq_false_2|].
    all: intros c rest' Ec Lc; by rewrite (Hc c rest' Ec Lc).
  - cbn [fst snd].
    assert (forall c rest', rest = c ++ rest' -> length c = 4%nat -> False) as Hc.
    { intros c rest' -> Lc.
      rewrite (read_exact 4 (advance 1 r) c rest') in E4 by done. congruence. }
    intros E; simplify_eq; tx_fields.
    split; [intros ->; by rewrite bool_decide_eq_true_2|].
    split; [intros Hne; by rewrite bool_decide_eq_false_2|].
    intros c rest' Ec Lc. destruct (Hc c rest' Ec Lc).
Qed.

(** C9. The constructor, given a payload, keeps the version and the
    authorization it is given and sets the chain id to the default
    chain id, the post-condition mode to [Deny], the post-conditions to
    the empty list and the anchor mode to [OnChainOnly] for a coinbase
    or poison-microblock payload and to [Any] for every other
    payload. *)
Theorem constructor_defaults v a (p : Payload) :
  let tx : StacksTransaction := new_StacksTransaction v a (Some p) in
  version tx = v /\ auth tx = a /\ payload tx = Some p /\
  chainId tx = Some DEFAULT_CHAIN_ID /\
  postConditionMode tx = PostConditionMode_Deny /\
  postConditions tx = [] /\
  (payloadType p = Some PayloadType_Coinbase ->
   anchorMode tx = Some AnchorMode_OnChainOnly) /\
  (payloadType p = Some PayloadType_PoisonMicroblock ->
   anchorMode tx = Some AnchorMode_OnChainOnly) /\
  (payloadType p <> Some PayloadType_Coinbase ->
   payloadType p <> Some PayloadType_PoisonMicroblock ->
   anchorMode tx = Some AnchorMode_Any).
Proof.
  cbn zeta. unfold new_StacksTransaction, strict_eq.
  repeat case_bool_decide; tx_fields; repeat split; congruence.
Qed.

(** C10. The constructor, given no payload, leaves the anchor mode
    absent, and a transaction whose anchor mode is absent while its
    version, chain id and authorization are present does not
    serialize: [serialize] throws the error that names the anchor
    mode and leaves the transaction as it was.  This is what happens
    to a transaction built from a version and an authorization
    alone. *)
Theorem constructor_without_payload :
  (forall v a,
     anchorMode (new_StacksTransaction v a None : StacksTransaction) = None) /\
  (forall x : StacksTransaction,
     anchorMode x = None ->
     version x <> None -> chainId x <> None -> auth x <> None ->
     StacksTransaction_serialize x = (Throw (undefined_error "anchorMode"), x)) /\
  (forall v a,
     let tx : StacksTransaction := new_StacksTransaction (Some v) (Some a) None in
     StacksTransaction_serialize tx = (Throw (undefined_error "anchorMode"), tx)).
Proof.
  split; [done|]. split; [|done].
  intros x Hm Hv Hc Ha. apply StacksTransaction_serialize_absent.
  unfold StacksTransaction_first_absent. rewrite Hm.
  by destruct (version x), (chainId x), (auth x).
Qed.

(** ** More on reads and big-endian integers *)

Lemma read_Ok n r b r' : read n r = (Ok b, r') -> length b = n /\ r' = advance n r.
Proof.
  unfold read. case_decide; [|done]. intros [= <- <-]. split; [|done].
  rewrite length_take. lia.
Qed.

Lemma be_to_N_bound b : be_to_N b < 256 ^ N.of_nat (length b).
Proof.
  induction b as [|x b IH] using rev_ind; [done|].
  rewrite be_to_N_snoc, length_app, Nat2N.inj_add, N.pow_add_r.
  pose proof (Byte.to_N_bounded x). cbn [length]. change (256 ^ N.of_nat 1) with 256.
  lia.
Qed.

Lemma hex_tag_toHex b : length b = 1%nat -> hex_tag (toHex b).
Proof. destruct b as [|x [|]]; [done| |done]. intros _. by exists x. Qed.

Lemma read_Ok_remaining n r b r' :
  read n r = (Ok b, r') -> remaining r = b ++ remaining r'.
Proof.
  unfold read. case_decide; [|done]. intros [= <- <-].
  by rewrite remaining_advance, take_drop.
Qed.

Lemma N_to_be_be_to_N b : N_to_be (length b) (be_to_N b) = b.
Proof.
  induction b as [|x b IH] using rev_ind; [done|].
  rewrite length_app, Nat.add_1_r, be_to_N_snoc. cbn [N_to_be length].
  pose proof (Byte.to_N_bounded x) as Hx.
  assert ((be_to_N b * 256 + Byte.to_N x) / 256 = be_to_N b) as ->.
  { rewrite N.div_add_l by lia. rewrite N.div_small by lia. lia. }
  rewrite IH. f_equal. f_equal. unfold byte_of_N.
  assert ((be_to_N b * 256 + Byte.to_N x) mod 256 = Byte.to_N x) as ->.
  { rewrite N.add_comm, N.Div0.mod_add. apply N.mod_small. lia. }
  by rewrite Byte.of_to_N.
Qed.

(** ** Further properties of [postcondition.ts] *)

(** X1. The bytes of a post-condition whose principal and condition
    code are present.  [serialize] returns bytes exactly when the parts
    of the variant are present and serialize, and the amount is below
    [2^64]; the bytes are then the discriminant, the principal, the
    asset info of a fungible or non-fungible post-condition, the asset
    name of a non-fungible one, the condition code, and the eight
    big-endian bytes of the amount of an STX or fungible one, in this
    order and with nothing else. *)
Theorem PostCondition_serialize_layout (x : PostCondition) p c :
  principal x = Some p -> conditionCode x = Some c ->
  forall bs,
    (postConditionType x = Some PostConditionType_STX ->
     fst (PostCondition_serialize x) = Ok bs <->
     exists bp a,
       serialize p = Ok bp /\ amount x = Some a /\ a < 2 ^ 64 /\
       bs = fromHex PostConditionType_STX ++ bp ++ fromHex c ++ N_to_be 8 a) /\
    (postConditionType x = Some PostConditionType_Fungible ->
     fst (PostCondition_serialize x) = Ok bs <->
     exists bp i bi a,
       serialize p = Ok bp /\ assetInfo x = Some i /\ serialize i = Ok bi /\
       amount x = Some a /\ a < 2 ^ 64 /\
       bs = fromHex PostConditionType_Fungible ++ bp ++ bi ++ fromHex c
              ++ N_to_be 8 a) /\
    (postConditionType x = Some PostConditionType_NonFungible ->
     fst (PostCondition_serialize x) = Ok bs <->
     exists bp i bi n bn,
       serialize p = Ok bp /\ assetInfo x = Some i /\ serialize i = Ok bi /\
       assetName x = Some n /\ serialize n = Ok bn /\
       bs = fromHex PostConditionType_NonFungible ++ bp ++ bi ++ bn ++ fromHex c).
Proof.
  destruct postcondition_distinct as (D1 & D2 & D3).
  intros Ep Ec bs.
  unfold PostCondition_serialize, bind, get, required, lift, ret, throw.
  rewrite Ep, Ec.
  split; [|split]; intros Et; rewrite Et, ?strict_eq_same, ?strict_eq_diff by congruence;
    cbn [orb].
  - destruct (serialize p) as [bp|ep].
    2:{ cbn [fst]. split; [done|]. by intros (? & ? & ? & _). }
    destruct (amount x) as [a|].
    2:{ cbn [fst]. split; [done|]. by intros (? & ? & _ & ? & _). }
    unfold toArrayLike. destruct (decide (a < 256 ^ N.of_nat 8)) as [Ha|Ha].
    + cbn [fst]. flatten_buffers. split.
      * intros <-%Ok_inj. by exists bp, a.
      * intros (? & ? & ?%Ok_inj & [= <-] & _ & ->). by subst.
    + cbn [fst]. split; [done|]. intros (? & a' & _ & [= <-] & Ha' & _).
      by destruct Ha.
  - destruct (serialize p) as [bp|ep].
    2:{ cbn [fst]. split; [done|]. by intros (? & ? & ? & ? & ? & _). }
    destruct (assetInfo x) as [i|].
    2:{ cbn [fst]. split; [done|]. by intros (? & ? & ? & ? & _ & ? & _). }
    destruct (serialize i) as [bi|ei] eqn:Si.
    2:{ cbn [fst]. split; [done|].
        intros (? & ? & ? & ? & _ & [= <-] & ? & _). congruence. }
    destruct (amount x) as [a|].
    2:{ cbn [fst]. split; [done|]. by intros (? & ? & ? & ? & _ & _ & _ & ? & _). }
    unfold toArrayLike. destruct (decide (a < 256 ^ N.of_nat 8)) as [Ha|Ha].
    + cbn [fst]. flatten_buffers. split.
      * intros <-%Ok_inj. by exists bp, i, bi, a.
      * intros (? & ? & ? & ? & ?%Ok_inj & [= <-] & Hi & [= <-] & _ & ->).
        rewrite Si in Hi. apply Ok_inj in Hi. by subst.
    + cbn [fst]. split; [done|].
      intros (? & ? & ? & a' & _ & _ & _ & [= <-] & Ha' & _). by destruct Ha.
  - destruct (serialize p) as [bp|ep].
    2:{ cbn [fst]. split; [done|]. by intros (? & ? & ? & ? & ? & ? & _). }
    destruct (assetInfo x) as [i|].
    2:{ cbn [fst]. split; [done|]. by intros (? & ? & ? & ? & ? & _ & ? & _). }
    destruct (serialize i) as [bi|ei] eqn:Si.
    2:{ cbn [fst]. split; [done|].
        intros (? & ? & ? & ? & ? & _ & [= <-] & ? & _). congruence. }
    destruct (assetName x) as [n|].
    2:{ cbn [fst]. split; [done|]. by intros (? & ? & ? & ? & ? & _ & _ & _ & ? & _). }
    destruct (serialize n) as [bn|en] eqn:Sn.
    2:{ cbn [fst]. split; [done|].
        intros (? & ? & ? & ? & ? & _ & _ & _ & [= <-] & ? & _). congruence. }
    cbn [fst]. flatten_buffers. split.
    + intros <-%Ok_inj. by exists bp, i, bi, n, bn.
    + intros (? & ? & ? & ? & ? & ?%Ok_inj & [= <-] & Hi & [= <-] & Hn & ->).
      rewrite Si in Hi. rewrite Sn in Hn. apply Ok_inj in Hi, Hn. by subst.
Qed.

(** X2. [serialize] looks only at the fields of the variant.  The
    asset info of a post-condition that is neither fungible nor
    non-fungible, the asset name of one that is not non-fungible and
    the amount of one that is neither STX nor fungible have no effect
    on what [serialize] returns or throws. *)
Theorem PostCondition_serialize_ignores (x : PostCondition) :
  (postConditionType x <> Some PostConditionType_Fungible ->
   postConditionType x <> Some PostConditionType_NonFungible ->
   forall v, fst (PostCondition_serialize (set_assetInfo v x))
             = fst (PostCondition_serialize x)) /\
  (postConditionType x <> Some PostConditionType_NonFungible ->
   forall v, fst (PostCondition_serialize (set_assetName v x))
             = fst (PostCondition_serialize x)) /\
  (postConditionType x <> Some PostConditionType_STX ->
   postConditionType x <> Some PostConditionType_Fungible ->
   forall v, fst (PostCondition_serialize (set_amount v x))
             = fst (PostCondition_serialize x)).
Proof.
  unfold PostCondition_serialize, bind, get, required, lift, ret, throw, strict_eq.
  split; [|split].
  - intros H1 H2 v. pc_fields. rewrite !bool_decide_eq_false_2 by done.
    destruct (postConditionType x) as [t|]; [|done].
    destruct (principal x) as [p|]; [|done].
    destruct (serialize p); [|done]. cbn [orb].
    destruct (conditionCode x); [|done].
    destruct (bool_decide (Some t = Some PostConditionType_STX)); [|done].
    cbn [orb]. destruct (amount x) as [am|]; [|done]. by destruct (toArrayLike am 8).
  - intros H1 v. pc_fields. rewrite !(bool_decide_eq_false_2 _ H1).
    destruct (postConditionType x) as [t|]; [|done].
    destruct (principal x) as [p|]; [|done].
    destruct (serialize p); [|done]. rewrite orb_false_r.
    destruct (bool_decide (Some t = Some PostConditionType_Fungible)).
    all: destruct (bool_decide (Some t = Some PostConditionType_STX)); cbn [orb].
    all: destruct (assetInfo x) as [i|]; [destruct (serialize i)|]; try done.
    all: destruct (conditionCode x); try done.
    all: destruct (amount x) as [am|]; [destruct (toArrayLike am 8)|]; done.
  - intros H1 H2 v. pc_fields. rewrite !(bool_decide_eq_false_2 _ H1).
    rewrite !(bool_decide_eq_false_2 _ H2).
    destruct (postConditionType x) as [t|]; [|done].
    destruct (principal x) as [p|]; [|done].
    destruct (serialize p); [|done]. cbn [orb].
    destruct (bool_decide (Some t = Some PostConditionType_NonFungible)).
    all: destruct (assetInfo x) as [i|]; [destruct (serialize i)|]; try done.
    all: destruct (assetName x) as [n|]; [destruct (serialize n)|]; try done.
    all: by destruct (conditionCode x).
Qed.

(** X3. [deserialize] assigns only the fields of the variant it reads.
    However the call ends, the asset info of the receiver is the one it
    had unless the discriminant is now fungible or non-fungible, its
    asset name is the one it had unless the discriminant is now
    non-fungible, and its amount is the one it had unless the
    discriminant is now STX or fungible: what an object held before it
    is read into again stays in the fields outside the new variant. *)
Theorem PostCondition_deserialize_frame (this0 : PostCondition) r res y r' :
  PostCondition_deserialize (this0, r) = (res, (y, r')) ->
  (postConditionType y <> Some PostConditionType_Fungible ->
   postConditionType y <> Some PostConditionType_NonFungible ->
   assetInfo y = assetInfo this0) /\
  (postConditionType y <> Some PostConditionType_NonFungible ->
   assetName y = assetName this0) /\
  (postConditionType y <> Some PostConditionType_STX ->
   postConditionType y <> Some PostConditionType_Fungible ->
   amount y = amount this0).
Proof.
  unfold PostCondition_deserialize, bind, on_reader, assign, this_, ret.
  cbn [fst snd]. destruct (read 1 r) as [[b|?] r1]; [|by intros E; simplify_eq].
  cbn [fst snd]. destruct (deserialize r1) as [[p|?] r2]; [|by intros E; simplify_eq].
  cbn [fst snd]. pc_fields.
  repeat first
    [ progress (cbn [fst snd]; pc_fields)
    | match goal with
      | |- context [read ?n ?r] => destruct (read n r) as [[?|?] ?]
      | |- context [@deserialize ?T ?I ?r] => destruct (@deserialize T I r) as [[?|?] ?]
      | |- context [if ?c then _ else _] => destruct c eqn:?
      end ].
  all: intros E; simplify_eq; pc_fields.
  all: unfold strict_eq in *.
  all: repeat match goal with
         | H : _ || _ = true |- _ => apply orb_true_iff in H; destruct H
         | H : _ || _ = false |- _ => apply orb_false_iff in H; destruct H
         | H : bool_decide _ = true |- _ => apply bool_decide_eq_true_1 in H
         | H : bool_decide _ = false |- _ => apply bool_decide_eq_false_1 in H
         end.
  all: repeat split; intros; congruence.
Qed.


(** Two values that the same parser reads from the front of the same
    bytes are the same value, read from the same bytes. *)
Lemma parses_prefix_free {A} (m : M BufferReader A) bx by_ rx ry (x y : A) :
  parses m bx x -> parses m by_ y -> bx ++ rx = by_ ++ ry ->
  x = y /\ bx = by_ /\ rx = ry.
Proof.
  intros Hx Hy E.
  pose proof (Hx (BufferReader_new (bx ++ rx)) rx eq_refl) as E1.
  pose proof (Hy (BufferReader_new (bx ++ rx)) ry E) as E2.
  rewrite E1 in E2. injection E2 as -> El.
  assert (length bx = length by_) as Hl.
  { cbn in El. lia. }
  split; [done|]. by apply app_inj_1.
Qed.

(** X5. The encoding is unambiguous.  If the bytes of a well-formed
    post-condition, followed by anything, are the bytes of another
    well-formed post-condition, followed by anything, then the two
    post-conditions are equal, and so are their bytes and what follows
    them; in particular no serialization is a proper prefix of
    another.  The same holds for well-formed transactions. *)
Theorem serialize_prefix_free :
  (forall (x y : PostCondition) bx by_ rx ry,
     wf_PostCondition x -> wf_PostCondition y ->
     fst (PostCondition_serialize x) = Ok bx ->
     fst (PostCondition_serialize y) = Ok by_ ->
     bx ++ rx = by_ ++ ry -> x = y /\ bx = by_ /\ rx = ry) /\
  (forall (x y : StacksTransaction) bx by_ rx ry,
     wf_StacksTransaction x -> wf_StacksTransaction y ->
     fst (StacksTransaction_serialize x) = Ok bx ->
     fst (StacksTransaction_serialize y) = Ok by_ ->
     bx ++ rx = by_ ++ ry -> x = y /\ bx = by_ /\ rx = ry).
Proof.
  split; intros x y bx by_ rx ry Hx Hy Sx Sy E.
  - destruct (PostCondition_lawful x Hx) as (bx' & Sx' & Px).
    destruct (PostCondition_lawful y Hy) as (by' & Sy' & Py).
    cbn [serialize PostCondition_message] in Sx', Sy'.
    rewrite Sx in Sx'. rewrite Sy in Sy'. apply Ok_inj in Sx', Sy'. subst.
    by eapply parses_prefix_free.
  - destruct (StacksTransaction_lawful x Hx) as (bx' & Sx' & Px).
    destruct (StacksTransaction_lawful y Hy) as (by' & Sy' & Py).
    cbn [serialize StacksTransaction_message] in Sx', Sy'.
    rewrite Sx in Sx'. rewrite Sy in Sy'. apply Ok_inj in Sx', Sy'. subst.
    by eapply parses_prefix_free.
Qed.

(** X6. The round trip keeps the fields of the variant and nothing
    else.  A post-condition that agrees with a well-formed one on the
    discriminant, the principal, the condition code and the fields that
    the variant has, whatever its other fields hold, serializes to the
    bytes of the well-formed one, and these bytes read back into a fresh
    object as the well-formed one: the fields outside the variant are
    absent after the round trip. *)
Theorem serialize_deserialize_normalises (x y : PostCondition) :
  wf_PostCondition y ->
  postConditionType x = postConditionType y ->
  principal x = principal y -> conditionCode x = conditionCode y ->
  (postConditionType y = Some PostConditionType_STX \/
   postConditionType y = Some PostConditionType_Fungible -> amount x = amount y) ->
  (postConditionType y = Some PostConditionType_Fungible \/
   postConditionType y = Some PostConditionType_NonFungible ->
   assetInfo x = assetInfo y) ->
  (postConditionType y = Some PostConditionType_NonFungible ->
   assetName x = assetName y) ->
  exists bs,
    PostCondition_serialize x = (Ok bs, x) /\
    PostCondition_serialize y = (Ok bs, y) /\
    forall ty0 r rest, remaining r = bs ++ rest ->
      PostCondition_deserialize (new_PostCondition ty0 None None None None None, r)
      = (Ok tt, (y, advance (length bs) r)).
Proof.
  intros Hy Et Ep Ec Ha Hi Hn.
  destruct (PostCondition_roundtrip_method y Hy) as (bs & Es & Hd).
  exists bs. split; [|split; [done|by intros ty0 r rest E; apply (Hd ty0 r rest)]].
  assert (fst (PostCondition_serialize x) = fst (PostCondition_serialize y)) as Hfst.
  { destruct postcondition_distinct as (D1 & D2 & D3).
    unfold PostCondition_serialize, bind, get, required, lift, ret, throw.
    rewrite Et, Ep, Ec.
    destruct Hy as [p c a Hp Hc Hlt|p c a i Hp Hc Hlt Hwi|p c i n Hp Hc Hwi Hwn].
    - unfold new_STXPostCondition in *.
      cbn [postConditionType principal conditionCode assetInfo assetName amount
           new_PostCondition] in Ha |- *.
      rewrite (Ha (or_introl eq_refl)).
      rewrite !strict_eq_same, !strict_eq_diff by congruence. cbn [orb].
      destruct (serialize p); [|done]. by destruct (toArrayLike a 8).
    - unfold new_FungiblePostCondition in *.
      cbn [postConditionType principal conditionCode assetInfo assetName amount
           new_PostCondition] in Ha, Hi |- *.
      rewrite (Ha (or_intror eq_refl)), (Hi (or_introl eq_refl)).
      rewrite !strict_eq_same, !strict_eq_diff by congruence. cbn [orb].
      destruct (serialize p); [|done]. destruct (serialize i); [|done].
      by destruct (toArrayLike a 8).
    - unfold new_NonFungiblePostCondition in *.
      cbn [postConditionType principal conditionCode assetInfo assetName amount
           new_PostCondition] in Hi, Hn |- *.
      rewrite (Hi (or_intror eq_refl)), (Hn eq_refl).
      rewrite !strict_eq_same, !strict_eq_diff by congruence. cbn [orb].
      destruct (serialize p); [|done]. destruct (serialize i); [|done].
      by destruct (serialize (new_LengthPrefixedString n)). }
  pose proof (PostCondition_serialize_frame x) as Hsnd.
  destruct (PostCondition_serialize x) as [rx sx]. cbn [fst snd] in Hfst, Hsnd.
  rewrite Es in Hfst. cbn [fst] in Hfst. by subst.
Qed.

(** X7. Which error [serialize] throws when a part of a
    post-condition does not serialize.  The parts are serialized as
    they are reached: the error of the principal is thrown whatever the
    other fields hold, the error of the asset info of a fungible or
    non-fungible post-condition is thrown when the principal
    serializes, and the error of the asset name of a non-fungible one
    when the principal and the asset info do, each of them also when
    the condition code or the amount, which are looked at later, is
    absent.  The post-condition is left as it was. *)
Theorem PostCondition_serialize_error_order (x : PostCondition) t p :
  postConditionType x = Some t -> principal x = Some p ->
  (forall msg, serialize p = Throw msg ->
     PostCondition_serialize x = (Throw msg, x)) /\
  (forall bp i msg,
     serialize p = Ok bp ->
     t = PostConditionType_Fungible \/ t = PostConditionType_NonFungible ->
     assetInfo x = Some i -> serialize i = Throw msg ->
     PostCondition_serialize x = (Throw msg, x)) /\
  (forall bp i bi n msg,
     serialize p = Ok bp -> t = PostConditionType_NonFungible ->
     assetInfo x = Some i -> serialize i = Ok bi ->
     assetName x = Some n -> serialize n = Throw msg ->
     PostCondition_serialize x = (Throw msg, x)).
Proof.
  intros Et Ep.
  unfold PostCondition_serialize, bind, get, required, lift, ret, throw.
  rewrite Et, Ep.
  split; [|split].
  - by intros msg ->.
  - intros bp i msg -> Ht -> ->.
    assert (strict_eq (Some t) PostConditionType_Fungible
            || strict_eq (Some t) PostConditionType_NonFungible = true) as ->; [|done].
    destruct Ht as [-> | ->]; rewrite strict_eq_same; [done|apply orb_true_r].
  - intros bp i bi n msg -> -> -> -> -> ->.
    by rewrite strict_eq_same, orb_true_r.
Qed.

Lemma toArrayLike_read b :
  length b = 8%nat -> toArrayLike (new_BigNum_hex (toHex b)) 8 = Ok b.
Proof.
  intros Lb. unfold toArrayLike, new_BigNum_hex. rewrite fromHex_toHex.
  pose proof (be_to_N_bound b) as Hb. rewrite Lb in Hb.
  rewrite decide_True by done. by rewrite <- Lb, N_to_be_be_to_N.
Qed.

(** X8. What [deserialize] has read, [serialize] writes, for the
    post-conditions that have no asset name.  When [deserialize]
    returns, the discriminant it has read is not the non-fungible one,
    and the principal and the asset info it has read serialize to the
    bytes they were read from, [serialize] of the object returns
    exactly the bytes that [deserialize] consumed: the discriminant,
    the condition code and the eight bytes of the amount are written
    as they were read. *)
Theorem PostCondition_deserialize_serialize (this0 : PostCondition) r y r' :
  PostCondition_deserialize (this0, r) = (Ok tt, (y, r')) ->
  postConditionType y <> Some PostConditionType_NonFungible ->
  (forall p r1 r2,
     principal y = Some p -> deserialize r1 = (Ok p, r2) ->
     exists bs, serialize p = Ok bs /\ remaining r1 = bs ++ remaining r2) ->
  (forall i r1 r2,
     postConditionType y = Some PostConditionType_Fungible ->
     assetInfo y = Some i -> deserialize r1 = (Ok i, r2) ->
     exists bs, serialize i = Ok bs /\ remaining r1 = bs ++ remaining r2) ->
  exists bs,
    fst (PostCondition_serialize y) = Ok bs /\ remaining r = bs ++ remaining r'.
Proof.
  unfold PostCondition_deserialize, bind, on_reader, assign, this_, ret.
  cbn [fst snd]. destruct (read 1 r) as [[b|?] r1] eqn:R1; [|done].
  cbn [fst snd]. destruct (deserialize r1) as [[p|?] r2] eqn:D2; [|done].
  cbn [fst snd]. pc_fields.
  destruct (strict_eq (Some (toHex b)) PostConditionType_STX) eqn:CS,
           (strict_eq (Some (toHex b)) PostConditionType_Fungible) eqn:CF,
           (strict_eq (Some (toHex b)) PostConditionType_NonFungible) eqn:CN.
  all: cbn [orb].
  all: repeat first
    [ progress (cbn [fst snd orb]; pc_fields; rewrite ?CS, ?CF, ?CN)
    | match goal with
      | |- context [read ?n ?r] =>
          let R := fresh "R" in destruct (read n r) as [[?|?] ?] eqn:R
      | |- context [@deserialize ?T ?I ?r] =>
          let D := fresh "D" in destruct (@deserialize T I r) as [[?|?] ?] eqn:D
      end ].
  all: intros E; simplify_eq.
  all: intros HT HP HI.
  all: cbn [postConditionType principal conditionCode assetInfo assetName amount
            set_postConditionType set_principal set_conditionCode set_assetInfo
            set_assetName set_amount] in HT, HP, HI.
  all: try (apply bool_decide_eq_true_1 in CN; by destruct HT).
  all: destruct (HP _ _ _ eq_refl D2) as (bp & Sp & Ep).
  all: try match goal with
         | D : @deserialize AssetInfo _ _ = (Ok _, _) |- _ =>
             destruct (HI _ _ _ (bool_decide_eq_true_1 _ CF) eq_refl D)
               as (bi & Si & Ei)
         end.
  all: unfold PostCondition_serialize, bind, get, required, lift, ret, throw.
  all: pc_fields; rewrite ?CS, ?CF, ?CN; cbn [orb].
  all: rewrite Sp, ?Si.
  all: repeat match goal with
         | R : read _ _ = (Ok _, _) |- _ =>
             let L := fresh "L" in
             pose proof (read_Ok _ _ _ _ R) as [L _]; apply read_Ok_remaining in R
         end.
  all: rewrite ?toArrayLike_read by done.
  all: cbn [fst]; flatten_buffers; rewrite !fromHex_toHex.
  all: eexists; split; [reflexivity|].
  all: repeat match goal with
         | H : remaining ?x = _ |- context [remaining ?x] => rewrite H; clear H
         end.
  all: by rewrite <- ?app_assoc.
Qed.

(** ** Further properties of [transaction.ts] *)

(** X9. [deserialize] assigns every field of a transaction.  When it
    returns, the transaction it has built and the position of the
    cursor depend on the bytes alone: the same call on any other
    receiver builds the same transaction, so nothing of an object that
    is read into again is carried over. *)
Theorem StacksTransaction_deserialize_overwrites (this0 this1 : StacksTransaction)
    r y r' :
  StacksTransaction_deserialize (this0, r) = (Ok tt, (y, r')) ->
  StacksTransaction_deserialize (this1, r) = (Ok tt, (y, r')).
Proof.
  unfold StacksTransaction_deserialize, bind, on_reader, assign, this_, ret.
  repeat step_tx.
  all: intros E; simplify_eq; done.
Qed.

(** X10. What [deserialize] has built when it returns lacks no
    required field.  A post-condition, read into any receiver, has its
    discriminant, principal and condition code present, and the asset
    info, asset name and amount that its variant requires; the
    discriminant and the condition code are one-byte tags and the
    amount is below [2^64].  A transaction has its five optional fields
    present, a version of the enum, a four-byte chain id and one-byte
    anchor and post-condition modes.  Nothing is said of what the
    codecs of the principal, the asset info and the asset name have
    read. *)
Theorem deserialize_required_fields :
  (forall (this0 : PostCondition) r y r',
     PostCondition_deserialize (this0, r) = (Ok tt, (y, r')) ->
     PostCondition_first_absent y = None /\
     (exists t, postConditionType y = Some t /\ hex_tag t) /\
     (exists c, conditionCode y = Some c /\ hex_tag c) /\
     (postConditionType y = Some PostConditionType_STX \/
      postConditionType y = Some PostConditionType_Fungible ->
      exists a, amount y = Some a /\ a < 2 ^ 64)) /\
  (forall (this0 : StacksTransaction) r y r',
     StacksTransaction_deserialize (this0, r) = (Ok tt, (y, r')) ->
     StacksTransaction_first_absent y = None /\
     (version y = Some TransactionVersion_Mainnet \/
      version y = Some TransactionVersion_Testnet) /\
     (exists b, chainId y = Some (toHex b) /\ length b = 4%nat) /\
     (exists m, anchorMode y = Some m /\ hex_tag m) /\
     hex_tag (postConditionMode y)).
Proof.
  split.
  - intros this0 r y r'.
    unfold PostCondition_deserialize, bind, on_reader, assign, this_, ret.
    cbn [fst snd]. destruct (read 1 r) as [[b|?] r1] eqn:R1; [|done].
    apply read_Ok in R1 as [L1 _].
    cbn [fst snd]. destruct (deserialize r1) as [[p|?] r2]; [|done].
    cbn [fst snd]. pc_fields.
    repeat first
      [ progress (cbn [fst snd]; pc_fields)
      | match goal with
        | |- context [read ?n ?r] =>
            let R := fresh "R" in
            destruct (read n r) as [[?|?] ?] eqn:R; [apply read_Ok in R as [? _]|]
        | |- context [@deserialize ?T ?I ?r] => destruct (@deserialize T I r) as [[?|?] ?]
        | |- context [if ?c then _ else _] => destruct c eqn:?
        end ].
    all: intros E; simplify_eq; pc_fields.
    all: unfold PostCondition_first_absent; pc_fields; cbn [absent].
    all: repeat match goal with
           | H : _ = true |- _ => rewrite H
           | H : _ = false |- _ => rewrite H
           end.
    all: cbn [andb].
    all: split; [done|]; split; [eexists; split; [done|by apply hex_tag_toHex]|].
    all: split; [eexists; split; [done|by apply hex_tag_toHex]|].
    all: try (intros _; eexists; split; [done|]; unfold new_BigNum_hex;
              rewrite fromHex_toHex;
              match goal with
              | H : length ?b = 8%nat |- be_to_N ?b < _ =>
                  pose proof (be_to_N_bound b) as Hb; rewrite H in Hb; exact Hb
              end).
    all: intros [[= Ht]|[= Ht]]; rewrite Ht in *.
    all: rewrite strict_eq_same in *; cbn [orb] in *; try done.
    all: rewrite orb_true_r in *; done.
  - intros this0 r y r'.
    unfold StacksTransaction_deserialize, bind, on_reader, assign, this_, ret.
    cbn [fst snd]. destruct (read 1 r) as [[b1|?] r1] eqn:R1; [|done].
    cbn [fst snd]. destruct (read 4 r1) as [[b4|?] r2] eqn:R2; [|done].
    cbn [fst snd]. destruct (deserialize r2) as [[a|?] r3]; [|done].
    cbn [fst snd]. destruct (read 1 r3) as [[bm|?] r4] eqn:R3; [|done].
    cbn [fst snd]. destruct (read 1 r4) as [[bp|?] r5] eqn:R4; [|done].
    apply read_Ok in R1 as [L1 _], R2 as [L2 _], R3 as [L3 _], R4 as [L4 _].
    repeat step_tx.
    all: intros E; simplify_eq; tx_fields.
    split; [done|]. split; [case_bool_decide; by eauto|].
    split; [by eauto|]. split; [|by apply hex_tag_toHex].
    eexists. split; [done|]. by apply hex_tag_toHex.
Qed.

(** X11. [addPostCondition] appends: the post-condition becomes the
    last one of the list and no other field changes.  Adding a
    well-formed post-condition to a well-formed transaction, while the
    list stays shorter than [2^32], gives a well-formed transaction,
    which serializes and reads back with the added post-condition in
    the last place. *)
Theorem addPostCondition_roundtrip (x : StacksTransaction) (pc : PostCondition) :
  wf_StacksTransaction x -> wf_PostCondition pc ->
  N.of_nat (length (postConditions x)) + 1 < 2 ^ 32 ->
  let x' := set_postConditions (postConditions x ++ [pc]) x in
  StacksTransaction_addPostCondition pc x = (Ok tt, x') /\
  wf_StacksTransaction x' /\
  exists bs,
    StacksTransaction_serialize x' = (Ok bs, x') /\
    forall this0 r rest, remaining r = bs ++ rest ->
      StacksTransaction_deserialize (this0, r) = (Ok tt, (x', advance (length bs) r)).
Proof.
  intros Hx Hpc Hlen x'. split; [done|].
  assert (wf_StacksTransaction x') as Hx'.
  { destruct Hx as [Hv Hc Ha Hm Hpm Hpcs Hl Hp].
    split; subst x'; tx_fields; try done.
    - apply Forall_app. split; [done|]. by apply Forall_cons_2.
    - rewrite length_app. cbn [length]. lia. }
  split; [done|].
  destruct (StacksTransaction_roundtrip_method x' Hx') as (bs & Es & Hd).
  exists bs. split; [done|]. intros this0 r rest E. by apply (Hd this0 r rest).
Qed.

Lemma serialize_items_snoc {T} `{StacksMessage T} (l : list T) x items :
  serialize_items l = Ok items ->
  serialize_items (l ++ [x]) = rbind (serialize x) (fun b => Ok (items ++ b)).
Proof.
  revert items. induction l as [|y l IH]; intros items.
  - intros [= <-]. cbn. destruct (serialize x); [|done]. cbn. by rewrite app_nil_r.
  - cbn [serialize_items app]. destruct (serialize y) as [b|]; [|done]. cbn [rbind].
    destruct (serialize_items l) as [bs|]; [|done]. cbn [rbind]. intros [= <-].
    rewrite (IH bs eq_refl). destruct (serialize x); [|done]. cbn [rbind].
    by rewrite app_assoc.
Qed.

(** X12. What [addPostCondition] does to the bytes.  For a transaction
    whose fields are present and serialize, the serialization after
    [addPostCondition] differs from the one before in two places: the
    count of the post-condition list is one more, and the bytes of the
    added post-condition follow those of the post-conditions that were
    there, before the payload.  [addPostCondition] checks nothing: when
    the added post-condition does not serialize, the error it throws is
    thrown by [serialize] of the transaction. *)
Theorem addPostCondition_serialize (x : StacksTransaction) (pc : PostCondition)
    v c a m p ba items bp :
  version x = Some v -> chainId x = Some c -> auth x = Some a ->
  anchorMode x = Some m -> payload x = Some p ->
  serialize a = Ok ba -> serialize_items (postConditions x) = Ok items ->
  serialize p = Ok bp ->
  let head :=
    fromHex v ++ fromHex c ++ ba ++ fromHex m ++ fromHex (postConditionMode x) in
  fst (StacksTransaction_serialize x)
  = Ok (head ++ N_to_be 4 (N.of_nat (length (postConditions x))) ++ items ++ bp) /\
  fst (StacksTransaction_serialize (snd (StacksTransaction_addPostCondition pc x)))
  = match fst (PostCondition_serialize pc) with
    | Ok bpc =>
        Ok (head ++ N_to_be 4 (N.of_nat (length (postConditions x) + 1))
              ++ items ++ bpc ++ bp)
    | Throw msg => Throw msg
    end.
Proof.
  intros Ev Ec Ea Em Ep Sa Si Sp head. subst head.
  unfold StacksTransaction_addPostCondition, modify, LengthPrefixedList_push.
  unfold StacksTransaction_serialize, bind, get, required, lift, ret, throw.
  cbn [snd]. tx_fields. rewrite Ev, Ec, Ea, Em, Ep, Sa, Sp.
  unfold LengthPrefixedList_serialize. rewrite (serialize_items_snoc _ pc items Si), Si.
  cbn [rbind serialize PostCondition_message]. split.
  - cbn [fst]. flatten_buffers. done.
  - destruct (fst (PostCondition_serialize pc)) as [bpc|msg]; [|done].
    cbn [rbind fst]. rewrite length_app. cbn [length]. flatten_buffers. done.
Qed.

(** X13. [signNextOrigin] with every input present makes one call of
    [nextSignature], on the sighash, the authorization type, the fee
    rate and the nonce of the condition of [this.auth], and the private
    key.  When the call returns, the next sighash is returned; the
    signature is stored in the condition of [this.auth] when the
    condition is single-sig, and is stored nowhere when it is not: the
    transaction is then as it was.  After a single-sig signing the
    condition of [this.auth] has the new signature for its signature
    and every other field of the condition, of the authorization and of
    the transaction is what it was.  When the call throws, the
    transaction is as it was. *)
Theorem signNextOrigin_signs (this : StacksTransaction)
    (calls : list NextSignatureCall) sigHash privateKey a c t f n :
  auth this = Some a -> spendingCondition a = Some c -> authType a = Some t ->
  feeRate c = Some f -> nonce c = Some n ->
  StacksTransaction_signNextOrigin sigHash privateKey (this, calls)
  = match nextSignature sigHash t f n privateKey with
    | Ok (nextSig, nextSigHash) =>
        (Ok nextSigHash,
         (if singleSig c
          then set_auth
                 (Some (set_spendingCondition (Some (set_signature nextSig c)) a)) this
          else this,
          calls ++ [mkNextSignatureCall sigHash t f n privateKey]))
    | Throw msg =>
        (Throw msg, (this, calls ++ [mkNextSignatureCall sigHash t f n privateKey]))
    end /\
  (forall nextSig nextSigHash,
     nextSignature sigHash t f n privateKey = Ok (nextSig, nextSigHash) ->
     singleSig c = true ->
     exists this' a' c',
       StacksTransaction_signNextOrigin sigHash privateKey (this, calls)
       = (Ok nextSigHash,
          (this', calls ++ [mkNextSignatureCall sigHash t f n privateKey])) /\
       auth this' = Some a' /\ spendingCondition a' = Some c' /\
       signature c' = nextSig /\
       addressHashMode c' = addressHashMode c /\
       signerAddress c' = signerAddress c /\
       nonce c' = Some n /\ feeRate c' = Some f /\
       pubKeyEncoding c' = pubKeyEncoding c /\
       authType a' = Some t /\
       sponsorSpendingCondition a' = sponsorSpendingCondition a /\
       version this' = version this /\ chainId this' = chainId this /\
       anchorMode this' = anchorMode this /\ payload this' = payload this /\
       postConditionMode this' = postConditionMode this /\
       postConditions this' = postConditions this) /\
  (forall nextSig nextSigHash,
     nextSignature sigHash t f n privateKey = Ok (nextSig, nextSigHash) ->
     singleSig c = false ->
     StacksTransaction_signNextOrigin sigHash privateKey (this, calls)
     = (Ok nextSigHash,
        (this, calls ++ [mkNextSignatureCall sigHash t f n privateKey]))).
Proof.
  intros Ha Hc Ht Hf Hn.
  assert (StacksTransaction_signNextOrigin sigHash privateKey (this, calls)
          = match nextSignature sigHash t f n privateKey with
            | Ok (nextSig, nextSigHash) =>
                (Ok nextSigHash,
                 (if singleSig c
                  then set_auth
                         (Some (set_spendingCondition
                                  (Some (set_signature nextSig c)) a)) this
                  else this,
                  calls ++ [mkNextSignatureCall sigHash t f n privateKey]))
            | Throw msg =>
                (Throw msg,
                 (this, calls ++ [mkNextSignatureCall sigHash t f n privateKey]))
            end) as E.
  { unfold StacksTransaction_signNextOrigin, StacksTransaction_signAndAppend.
    unfold call_nextSignature, bind, this_, required, assign, ret, throw.
    cbn [fst snd]. rewrite Ha, Hc, Ht, Hf, Hn. cbn [fst snd].
    destruct (nextSignature sigHash t f n privateKey) as [[sig next]|msg].
    - destruct (singleSig c); [done|].
      by rewrite set_spendingCondition_same, set_auth_same.
    - by rewrite set_spendingCondition_same, set_auth_same. }
  split; [exact E|]. split.
  - intros nextSig nextSigHash En Hs. rewrite En, Hs in E.
    exists (set_auth (Some (set_spendingCondition (Some (set_signature nextSig c)) a))
              this),
           (set_spendingCondition (Some (set_signature nextSig c)) a),
           (set_signature nextSig c).
    split; [exact E|]. tx_fields.
    cbn [set_spendingCondition set_signature authType spendingCondition
         sponsorSpendingCondition signature addressHashMode signerAddress nonce
         feeRate pubKeyEncoding].
    by rewrite Ht, Hf, Hn.
  - intros nextSig nextSigHash En Hs. by rewrite En, Hs in E.
Qed.

(** X14. What [signNextOrigin] can change.  However the call ends, the
    transaction is as it was, or it differs from what it was in the
    signature of the condition of its authorization alone; the second
    happens only when the call returns and the condition is single-sig.
    At most one call of [nextSignature] has been made, on the sighash
    and the private key that were passed. *)
Theorem signNextOrigin_frame (this : StacksTransaction)
    (calls : list NextSignatureCall) sigHash privateKey res this' calls' :
  StacksTransaction_signNextOrigin sigHash privateKey (this, calls)
  = (res, (this', calls')) ->
  (this' = this \/
   exists a c sig,
     auth this = Some a /\ spendingCondition a = Some c /\ singleSig c = true /\
     is_Ok res = true /\
     this' = set_auth
               (Some (set_spendingCondition (Some (set_signature sig c)) a)) this) /\
  (calls' = calls \/
   exists t f n, calls' = calls ++ [mkNextSignatureCall sigHash t f n privateKey]).
Proof.
  unfold StacksTransaction_signNextOrigin, StacksTransaction_signAndAppend.
  unfold call_nextSignature, bind, this_, required, assign, ret, throw. cbn [fst snd].
  destruct (auth this) as [a|] eqn:Ha; [|intros E; simplify_eq; by auto].
  destruct (spendingCondition a) as [c|] eqn:Hc; [|intros E; simplify_eq; by auto].
  destruct (authType a) as [t|] eqn:Ht; [|intros E; simplify_eq; by auto].
  cbn [fst snd].
  destruct (feeRate c) as [f|] eqn:Hf.
  2:{ cbn [fst snd]. rewrite set_spendingCondition_same, set_auth_same by done.
      intros E; simplify_eq; by auto. }
  destruct (nonce c) as [n|] eqn:Hn.
  2:{ cbn [fst snd]. rewrite set_spendingCondition_same, set_auth_same by done.
      intros E; simplify_eq; by auto. }
  cbn [fst snd].
  destruct (nextSignature sigHash t f n privateKey) as [[sig next]|msg].
  - destruct (singleSig c) eqn:Hs; cbn [fst snd].
    + intros E; simplify_eq. split; [right|right; by eauto].
      exists a, c, sig. by repeat split.
    + rewrite set_spendingCondition_same, set_auth_same by done.
      intros E; simplify_eq. split; [by left|right; by eauto].
  - cbn [fst snd]. rewrite set_spendingCondition_same, set_auth_same by done.
    intros E; simplify_eq. split; [by left|right; by eauto].
Qed.

(** X15. The sighash that signing starts from does not depend on a
    signature that has been stored.  Provided that
    [intoInitialSighashAuth] returns the same authorization whatever
    the signature of the condition is, [signBegin] returns, or throws,
    after [signNextOrigin] what it did before. *)
Theorem signBegin_after_signNextOrigin (this : StacksTransaction)
    (calls : list NextSignatureCall) sigHash privateKey res this' calls' :
  (forall (a : Authorization) c sig,
     spendingCondition a = Some c ->
     fst (intoInitialSighashAuth
            (set_spendingCondition (Some (set_signature sig c)) a))
     = fst (intoInitialSighashAuth a)) ->
  StacksTransaction_signNextOrigin sigHash privateKey (this, calls)
  = (res, (this', calls')) ->
  fst (StacksTransaction_signBegin this') = fst (StacksTransaction_signBegin this).
Proof.
  intros Hstrip.
  unfold StacksTransaction_signNextOrigin, StacksTransaction_signAndAppend.
  unfold call_nextSignature, bind, this_, required, assign, ret, throw. cbn [fst snd].
  destruct (auth this) as [a|] eqn:Ha; [|by intros E; simplify_eq].
  destruct (spendingCondition a) as [c|] eqn:Hc; [|by intros E; simplify_eq].
  destruct (authType a) as [t|] eqn:Ht; [|by intros E; simplify_eq].
  cbn [fst snd].
  destruct (feeRate c) as [f|] eqn:Hf.
  2:{ cbn [fst snd]. rewrite set_spendingCondition_same, set_auth_same by done.
      by intros E; simplify_eq. }
  destruct (nonce c) as [n|] eqn:Hn.
  2:{ cbn [fst snd]. rewrite set_spendingCondition_same, set_auth_same by done.
      by intros E; simplify_eq. }
  cbn [fst snd].
  destruct (nextSignature sigHash t f n privateKey) as [[sig next]|msg].
  2:{ cbn [fst snd]. rewrite set_spendingCondition_same, set_auth_same by done.
      by intros E; simplify_eq. }
  destruct (singleSig c); cbn [fst snd].
  2:{ rewrite set_spendingCondition_same, set_auth_same by done.
      by intros E; simplify_eq. }
  intros E; simplify_eq.
  specialize (Hstrip a c sig Hc).
  unfold StacksTransaction_signBegin, cloneDeep, on_local.
  unfold bind, get, required, ret, throw. tx_fields. rewrite Ha.
  destruct (intoInitialSighashAuth
              (set_spendingCondition (Some (set_signature sig c)) a)) as [r1 a1].
  destruct (intoInitialSighashAuth a) as [r0 a0].
  cbn [fst] in Hstrip. subst r1.
  destruct r0 as [initial|msg]; [|done]. cbn [fst snd].
  change (set_auth (Some initial)
            (set_auth (Some (set_spendingCondition (Some (set_signature sig c)) a)) this))
    with (set_auth (Some initial) this).
  by destruct (StacksTransaction_txid (set_auth (Some initial) this)) as [[id|msg] tx'].
Qed.


(** X17. [txid] and [signBegin] on a transaction with a required field
    absent.  [txid] returns the transaction id of the serialization,
    and throws what [serialize] throws: the error that names the first
    absent field.  [signBegin] looks at the authorization first: when
    it is absent the error names it, also when the version or the chain
    id is absent as well; when it is present and
    [intoInitialSighashAuth] returns, the error names the first absent
    field.  Both leave the transaction as it was. *)
Theorem txid_signBegin_missing_field (x : StacksTransaction) :
  (forall bs, fst (StacksTransaction_serialize x) = Ok bs ->
     StacksTransaction_txid x = (Ok (txidFromData bs), x)) /\
  (forall f, StacksTransaction_first_absent x = Some f ->
     StacksTransaction_txid x = (Throw (undefined_error f), x)) /\
  (auth x = None ->
   StacksTransaction_signBegin x = (Throw (undefined_error "auth"), x)) /\
  (forall a initial a' f,
     auth x = Some a -> intoInitialSighashAuth a = (Ok initial, a') ->
     StacksTransaction_first_absent x = Some f ->
     StacksTransaction_signBegin x = (Throw (undefined_error f), x)).
Proof.
  split; [|split; [|split]].
  - intros bs Es. unfold StacksTransaction_txid, bind, ret.
    pose proof (StacksTransaction_serialize_frame x) as Hf.
    destruct (StacksTransaction_serialize x) as [res x']. cbn in Es, Hf. by subst.
  - intros f Hf. unfold StacksTransaction_txid, bind.
    by rewrite (StacksTransaction_serialize_absent x f Hf).
  - intros Ha. unfold StacksTransaction_signBegin, cloneDeep, bind, get, required, throw.
    by rewrite Ha.
  - intros a initial a' f Ha Hi Hf.
    unfold StacksTransaction_signBegin, StacksTransaction_txid, cloneDeep, on_local.
    unfold bind, get, required, ret, throw. rewrite Ha, Hi. cbn [fst snd].
    rewrite (StacksTransaction_serialize_absent (set_auth (Some initial) x) f); [done|].
    revert Hf. unfold StacksTransaction_first_absent. tx_fields. rewrite Ha.
    by cbn [absent].
Qed.

(** X18. Which error [serialize] throws when the five optional fields
    are present.  The authorization is serialized first, then the
    post-condition list, then the payload: the error is the one of the
    authorization when it does not serialize, whatever the list and the
    payload would do; it is the one of the list when the authorization
    serializes and the list does not; it is the one of the payload when
    only the payload does not.  The transaction is left as it was. *)
Theorem StacksTransaction_serialize_error_order (x : StacksTransaction) v c a m p :
  version x = Some v -> chainId x = Some c -> auth x = Some a ->
  anchorMode x = Some m -> payload x = Some p ->
  (forall msg, serialize a = Throw msg ->
     StacksTransaction_serialize x = (Throw msg, x)) /\
  (forall ba msg,
     serialize a = Ok ba ->
     LengthPrefixedList_serialize (postConditions x) = Throw msg ->
     StacksTransaction_serialize x = (Throw msg, x)) /\
  (forall ba bl msg,
     serialize a = Ok ba ->
     LengthPrefixedList_serialize (postConditions x) = Ok bl ->
     serialize p = Throw msg ->
     StacksTransaction_serialize x = (Throw msg, x)).
Proof.
  intros Ev Ec Ea Em Ep.
  unfold StacksTransaction_serialize, bind, get, required, lift, ret, throw.
  rewrite Ev, Ec, Ea, Em, Ep.
  split; [|split].
  - by intros msg ->.
  - by intros ba msg -> ->.
  - by intros ba bl msg -> -> ->.
Qed.
End Properties.

(** ** The wire formats are lawful *)

Module WireFacts.
Import Wire.

Lemma constants_ok : @ConstantsOK stacks_constants.
Proof.
  split.
  - split; [by exists x00|by exists x80].
  - done.
  - split; [by exists x00|]. split; [by exists x01|by exists x02].
  - done.
Qed.

Lemma lawful_Address : Lawful wf_Address.
Proof.
  intros [v h] Hh. unfold wf_Address in Hh. cbn in Hh.
  exists ([v] ++ h). split; [done|].
  cbn [deserialize Address_message]. unfold Address_deserialize.
  eapply parses_bind; [by apply (parses_read_n 1)|].
  eapply parses_bind_eq; [symmetry; apply app_nil_r|by apply parses_read_n|].
  apply parses_ret.
Qed.

Lemma lawful_Principal : Lawful wf_Principal.
Proof.
  intros [a|a n] Hp; cbn in Hp.
  - destruct (lawful_Address a Hp) as (ba & Sa & Pa).
    exists ([x02] ++ ba). split.
    { cbn [serialize Principal_message]. cbn [Principal_serialize]. by rewrite Sa. }
    cbn [deserialize Principal_message]. unfold Principal_deserialize.
    eapply parses_bind; [by apply (parses_read_n 1)|].
    eapply parses_bind_eq; [symmetry; apply app_nil_r|exact Pa|].
    rewrite bool_decide_eq_true_2 by done. apply parses_ret.
  - destruct Hp as [Ha Hn].
    destruct (lawful_Address a Ha) as (ba & Sa & Pa).
    destruct (LengthPrefixedString_lawful n Hn) as (bn & Sn & Pn).
    exists ([x03] ++ ba ++ bn). split.
    { cbn [serialize Principal_message]. cbn [Principal_serialize]. by rewrite Sa, Sn. }
    cbn [deserialize Principal_message]. unfold Principal_deserialize.
    eapply parses_bind; [by apply (parses_read_n 1)|].
    eapply parses_bind; [exact Pa|].
    rewrite bool_decide_eq_false_2 by done.
    rewrite bool_decide_eq_true_2 by done.
    eapply parses_bind_eq; [symmetry; apply app_nil_r|exact Pn|].
    apply parses_ret.
Qed.

Lemma lawful_AssetInfo : Lawful wf_AssetInfo.
Proof.
  intros [a c n] (Ha & Hc & Hn). cbn in Ha, Hc, Hn.
  destruct (lawful_Address a Ha) as (ba & Sa & Pa).
  destruct (LengthPrefixedString_lawful c Hc) as (bc & Sc & Pc).
  destruct (LengthPrefixedString_lawful n Hn) as (bn & Sn & Pn).
  exists (ba ++ bc ++ bn). split.
  { cbn [serialize AssetInfo_message]. unfold AssetInfo_serialize.
    cbn [asset_address asset_contractName asset_assetName]. by rewrite Sa, Sc, Sn. }
  cbn [deserialize AssetInfo_message]. unfold AssetInfo_deserialize.
  eapply parses_bind; [exact Pa|].
  eapply parses_bind; [exact Pc|].
  eapply parses_bind_eq; [symmetry; apply app_nil_r|exact Pn|].
  apply parses_ret.
Qed.

Lemma lawful_SpendingCondition : Lawful wf_SpendingCondition.
Proof.
  intros [m h n f k s] (Hm & Hh & (n' & En & Hn) & (f' & Ef & Hf) & Hk & Hs).
  cbn in Hm, Hh, En, Ef, Hk, Hs. subst n f.
  destruct (fromHex_tag _ Hm) as (mb & Emb & Fmb).
  destruct (fromHex_tag _ Hk) as (kb & Ekb & Fkb).
  exists ([mb] ++ h ++ N_to_be 8 n' ++ N_to_be 8 f' ++ [kb] ++ s). split.
  { cbn [serialize SpendingCondition_message]. unfold SpendingCondition_serialize.
    cbn [nonce feeRate addressHashMode signerAddress pubKeyEncoding signature].
    rewrite !toArrayLike_8 by done. cbn [rbind]. by rewrite Fmb, Fkb. }
  cbn [deserialize SpendingCondition_message]. unfold SpendingCondition_deserialize.
  eapply parses_bind; [by apply (parses_read_n 1)|].
  eapply parses_bind; [by apply parses_read_n|].
  eapply parses_bind; [apply parses_read_n, length_N_to_be|].
  eapply parses_bind; [apply parses_read_n, length_N_to_be|].
  eapply parses_bind; [by apply (parses_read_n 1)|].
  eapply parses_bind_eq; [symmetry; apply app_nil_r|by apply parses_read_n|].
  rewrite !new_BigNum_hex_be, <- Emb, <- Ekb by done. apply parses_ret.
Qed.

Lemma lawful_Authorization : Lawful wf_Authorization.
Proof.
  intros [t c s] Ha. unfold wf_Authorization in Ha. cbn in Ha.
  destruct t as [t|]; [|done]. destruct c as [c|]; [|done].
  destruct s as [s|].
  - destruct Ha as (-> & Hc & Hs).
    destruct (lawful_SpendingCondition c Hc) as (bc & Sc & Pc).
    destruct (lawful_SpendingCondition s Hs) as (bs & Ss & Ps).
    exists ([x05] ++ bc ++ bs). split.
    { cbn [serialize Authorization_message]. unfold Authorization_serialize.
      cbn [authType spendingCondition sponsorSpendingCondition].
      rewrite Sc. cbn [rbind]. rewrite bool_decide_eq_true_2 by done.
      by rewrite Ss. }
    cbn [deserialize Authorization_message]. unfold Authorization_deserialize.
    eapply parses_bind; [by apply (parses_read_n 1)|].
    eapply parses_bind; [exact Pc|].
    rewrite bool_decide_eq_true_2 by done.
    eapply parses_bind_eq; [symmetry; apply app_nil_r|exact Ps|].
    apply parses_ret.
  - destruct Ha as (-> & Hc).
    destruct (lawful_SpendingCondition c Hc) as (bc & Sc & Pc).
    exists ([x04] ++ bc). split.
    { cbn [serialize Authorization_message]. unfold Authorization_serialize.
      cbn [authType spendingCondition sponsorSpendingCondition].
      rewrite Sc. cbn [rbind]. by rewrite bool_decide_eq_false_2. }
    cbn [deserialize Authorization_message]. unfold Authorization_deserialize.
    eapply parses_bind; [by apply (parses_read_n 1)|].
    eapply parses_bind_eq; [symmetry; apply app_nil_r|exact Pc|].
    rewrite bool_decide_eq_false_2 by done.
    rewrite bool_decide_eq_true_2 by done. apply parses_ret.
Qed.

Lemma lawful_Payload : Lawful wf_Payload.
Proof.
  intros [r a m|b] Hp; cbn in Hp.
  - destruct Hp as (Hr & Ha & Hm).
    destruct (lawful_Address r Hr) as (br & Sr & Pr).
    exists ([x00] ++ br ++ N_to_be 8 a ++ m). split.
    { cbn [serialize Payload_message]. cbn [Payload_serialize].
      rewrite Sr, toArrayLike_8 by done. cbn [rbind]. by rewrite decide_True. }
    cbn [deserialize Payload_message]. unfold Payload_deserialize.
    eapply parses_bind; [by apply (parses_read_n 1)|].
    rewrite bool_decide_eq_true_2 by done.
    eapply parses_bind; [exact Pr|].
    eapply parses_bind; [apply parses_read_n, length_N_to_be|].
    eapply parses_bind_eq; [symmetry; apply app_nil_r|by apply parses_read_n|].
    rewrite new_BigNum_hex_be by done. apply parses_ret.
  - exists ([x04] ++ b). split.
    { cbn [serialize Payload_message]. cbn [Payload_serialize].
      by rewrite decide_True. }
    cbn [deserialize Payload_message]. unfold Payload_deserialize.
    eapply parses_bind; [by apply (parses_read_n 1)|].
    rewrite bool_decide_eq_false_2 by done.
    rewrite bool_decide_eq_true_2 by done.
    eapply parses_bind_eq; [symmetry; apply app_nil_r|by apply parses_read_n|].
    apply parses_ret.
Qed.
End WireFacts.

(** ** The model on the values of the test suite *)

Section Examples.
Import Wire WireFacts.

(** The serialization of the signed transfer is the one the test
    "Make STX token transfer" expects. *)
Example example_transaction_serialized :
  exists b, fst (StacksTransaction_serialize example_transaction) = Ok b /\
            toHex b = example_serialized.
Proof. eexists. split; [vm_compute; reflexivity|vm_compute; reflexivity]. Qed.

(** Read back, the expected serialization is the signed transfer, and
    the cursor ends at the end of the buffer. *)
Example example_transaction_deserialized :
  StacksTransaction_deserialize
    (new_StacksTransaction None None None, BufferReader_new (fromHex example_serialized))
  = (Ok tt, (example_transaction, mkReader (fromHex example_serialized) 179)).
Proof. vm_compute. reflexivity. Qed.

(** With [0x17] for its first byte the buffer still reads as a whole,
    into a testnet transaction. *)
Example example_odd_version_deserialized :
  StacksTransaction_deserialize (new_StacksTransaction None None None, example_odd_version)
  = (Ok tt,
     (set_version (Some TransactionVersion_Testnet) example_transaction,
      mkReader (buffer example_odd_version) 179)).
Proof. vm_compute. reflexivity. Qed.

(** The sighash that [signBegin] returns for the signed transfer is the
    transaction id of the unsigned one. *)
Example example_signBegin :
  StacksTransaction_signBegin example_transaction
  = (fst (StacksTransaction_txid example_unsigned), example_transaction).
Proof. vm_compute. reflexivity. Qed.

(** Signing the unsigned transfer stores the signature in the condition
    of its authorization and records one call of [nextSignature]. *)
Example example_signNextOrigin :
  exists sig next,
    nextSignature "sighash" AuthType_Standard 0 0 "key" = Ok (sig, next) /\
    StacksTransaction_signNextOrigin "sighash" "key" (example_unsigned, [])
    = (Ok next,
       (set_auth (Some (set_spendingCondition
                          (Some (set_signature sig example_condition)) example_auth))
          example_unsigned,
        [mkNextSignatureCall "sighash" AuthType_Standard 0 0 "key"])).
Proof. eexists _, _. split; vm_compute; reflexivity. Qed.

Lemma wf_example_recipient : wf_Address example_recipient.
Proof. reflexivity. Qed.

Lemma wf_example_principal : wf_Principal example_principal.
Proof. exact wf_example_recipient. Qed.

Lemma wf_example_contract_principal : wf_Principal example_contract_principal.
Proof. split; [exact wf_example_recipient|]. vm_compute. lia. Qed.

Lemma wf_example_assetInfo : wf_AssetInfo example_assetInfo.
Proof. split; [exact wf_example_recipient|]. split; vm_compute; lia. Qed.

Lemma wf_example_stx : wf_PostCondition wf_Principal wf_AssetInfo example_stx.
Proof.
  apply wf_STX; [exact wf_example_principal|by exists x03|done].
Qed.

Lemma wf_example_fungible : wf_PostCondition wf_Principal wf_AssetInfo example_fungible.
Proof.
  apply wf_Fungible;
    [exact wf_example_principal|by exists x03|done|exact wf_example_assetInfo].
Qed.

Lemma wf_example_nft : wf_PostCondition wf_Principal wf_AssetInfo example_nft.
Proof.
  apply wf_NonFungible;
    [exact wf_example_contract_principal|by exists x11|exact wf_example_assetInfo|].
  vm_compute. lia.
Qed.

Lemma wf_example_condition : wf_SpendingCondition example_condition.
Proof.
  split; [by exists x00|]. split; [reflexivity|].
  split; [by exists 0|]. split; [by exists 0|].
  split; [by exists x00|reflexivity].
Qed.

Lemma wf_example_auth : wf_Authorization example_auth.
Proof. split; [reflexivity|exact wf_example_condition]. Qed.

Lemma wf_example_payload : wf_Payload example_payload.
Proof. split; [exact wf_example_recipient|]. split; [done|reflexivity]. Qed.

Lemma wf_example_guarded :
  wf_StacksTransaction wf_Principal wf_AssetInfo wf_Authorization wf_Payload
    example_guarded.
Proof.
  split.
  - by left.
  - by exists [x00; x00; x00; x00].
  - exists example_auth. split; [reflexivity|exact wf_example_auth].
  - exists AnchorMode_Any. split; [reflexivity|by exists x03].
  - by exists x02.
  - apply Forall_cons_2; [exact wf_example_stx|].
    apply Forall_cons_2; [exact wf_example_fungible|].
    apply Forall_cons_2; [exact wf_example_nft|apply Forall_nil_2].
  - done.
  - exists example_payload. split; [reflexivity|exact wf_example_payload].
Qed.
End Examples.

(** ** The theorems at the values of the test suite *)

Section Witnesses.
Import Wire WireFacts.

(** The three post-conditions and the transfer that carries them
    round-trip. *)
Lemma serialize_deserialize_roundtrip_witness :
  wf_PostCondition wf_Principal wf_AssetInfo example_nft /\
  wf_StacksTransaction wf_Principal wf_AssetInfo wf_Authorization wf_Payload
    example_guarded /\
  (exists bs, PostCondition_serialize example_nft = (Ok bs, example_nft) /\
     forall ty0 r rest, remaining r = bs ++ rest ->
       PostCondition_deserialize (new_PostCondition ty0 None None None None None, r)
       = (Ok tt, (example_nft, advance (length bs) r)) /\
       remaining (advance (length bs) r) = rest) /\
  (exists bs, StacksTransaction_serialize example_guarded = (Ok bs, example_guarded) /\
     forall this0 r rest, remaining r = bs ++ rest ->
       StacksTransaction_deserialize (this0, r)
       = (Ok tt, (example_guarded, advance (length bs) r)) /\
       remaining (advance (length bs) r) = rest).
Proof.
  split; [exact wf_example_nft|]. split; [exact wf_example_guarded|].
  destruct (serialize_deserialize_roundtrip (K_ok := constants_ok)
              wf_Principal wf_AssetInfo wf_Authorization wf_Payload
              lawful_Principal lawful_AssetInfo lawful_Authorization lawful_Payload)
    as [HP HT].
  split; [exact (HP example_nft wf_example_nft)|
          exact (HT example_guarded wf_example_guarded)].
Defined.

(** The amount 1000000 of the STX post-condition of the test suite,
    and the absent amount of its non-fungible post-condition. *)
Lemma amount_absent_or_exact_witness :
  amount example_nft = None /\
  (exists bs, PostCondition_serialize example_nft = (Ok bs, example_nft) /\
     forall ty0 r rest, remaining r = bs ++ rest ->
       exists y : DemoPostCondition,
         PostCondition_deserialize (new_PostCondition ty0 None None None None None, r)
         = (Ok tt, (y, advance (length bs) r)) /\
         amount y = None) /\
  (exists bs, PostCondition_serialize example_stx = (Ok bs, example_stx) /\
     (exists pre, bs = pre ++ N_to_be 8 1000000) /\
     forall ty0 r rest, remaining r = bs ++ rest ->
       exists y : DemoPostCondition,
         PostCondition_deserialize (new_PostCondition ty0 None None None None None, r)
         = (Ok tt, (y, advance (length bs) r)) /\
         amount y = Some 1000000).
Proof.
  destruct (amount_absent_or_exact (K_ok := constants_ok) wf_Principal wf_AssetInfo
              lawful_Principal lawful_AssetInfo) as (HC & HN & _ & HS & HR).
  split; [exact (HC _ _ _ _)|].
  split; [exact (proj2 (HN example_nft wf_example_nft eq_refl))|].
  destruct (HR example_stx wf_example_stx (or_introl eq_refl)) as (a & bs & Ea & Es & Hd).
  exists bs. split; [exact Es|].
  assert (a = 1000000) as -> by (cbn in Ea; congruence).
  split; [|exact Hd].
  destruct (HS example_stx bs (or_introl eq_refl)) as (a' & pre & Ea' & _ & Eb & _).
  { by rewrite Es. }
  exists pre. assert (a' = 1000000) as <- by (cbn in Ea'; congruence). exact Eb.
Defined.

Lemma serialize_field_order_witness :
  exists bs ba bl bp,
    fst (StacksTransaction_serialize example_guarded) = Ok bs /\
    serialize example_auth = Ok ba /\
    LengthPrefixedList_serialize [example_stx; example_fungible; example_nft] = Ok bl /\
    serialize example_payload = Ok bp /\
    bs = [x00] ++ [x00; x00; x00; x00] ++ ba ++ [x03] ++ [x02] ++ bl ++ bp /\
    take 4 bl = [x00; x00; x00; x03] /\
    length bs = (1 + 4 + length ba + 1 + 1 + length bl + length bp)%nat.
Proof.
  destruct (fst (StacksTransaction_serialize example_guarded)) as [bs|msg] eqn:E;
    [|vm_compute in E; discriminate E].
  destruct (serialize_field_order example_guarded "00" "00000000" example_auth
              "03" example_payload eq_refl eq_refl eq_refl eq_refl eq_refl bs)
    as [_ Hpin].
  destruct (proj1 (Hpin x00 [x00; x00; x00; x00] x03 x02
                     eq_refl eq_refl eq_refl eq_refl eq_refl) E)
    as (ba & items & bp & Ha & Hi & Hp & Hbs & Hlen).
  exists bs, ba, (N_to_be 4 3 ++ items), bp.
  split; [reflexivity|]. split; [exact Ha|]. split.
  { change (rbind (serialize_items (postConditions example_guarded))
              (fun b => Ok (N_to_be 4 3 ++ b)) = Ok (N_to_be 4 3 ++ items)).
    rewrite Hi. reflexivity. }
  split; [exact Hp|]. split; [exact Hbs|]. split; [reflexivity|].
  rewrite Hlen. rewrite length_app. reflexivity.
Defined.



Lemma sign_missing_input_witness :
  StacksTransaction_signNextOrigin "sighash" "key" (example_no_fee, [])
  = (Throw (undefined_error "condition.feeRate"), (example_no_fee, [])) /\
  StacksTransaction_signAndAppend "sighash" AuthType_Standard "key"
    (example_condition_no_fee, [])
  = (Throw (undefined_error "condition.feeRate"), (example_condition_no_fee, [])).
Proof.
  destruct (@sign_missing_input Principal AssetInfo MessageSignature StacksPrivateKey
              Payload demo_collaborators) as [HN HA].
  split.
  - destruct (HN example_no_fee [] "sighash" "key") as (_ & H1).
    destruct (H1 _ eq_refl) as (_ & H2).
    destruct (H2 _ eq_refl) as (_ & H3).
    destruct (H3 _ eq_refl) as (H4 & _).
    exact (H4 eq_refl).
  - destruct (HA example_condition_no_fee [] "sighash" AuthType_Standard "key")
      as (H1 & _).
    exact (H1 eq_refl).
Defined.

Lemma signBegin_txid_of_stripped_copy_witness :
  auth example_transaction = Some example_auth /\
  snd (StacksTransaction_signBegin example_transaction) = example_transaction /\
  fst (StacksTransaction_signBegin example_transaction)
  = Ok (txidFromData (fromHex example_unsigned_serialized)) /\
  fst (StacksTransaction_txid example_transaction)
  = Ok (txidFromData (fromHex example_serialized)) /\
  example_unsigned_serialized <> example_serialized.
Proof.
  split; [reflexivity|].
  destruct (signBegin_txid_of_stripped_copy example_transaction example_auth eq_refl)
    as (Hframe & _ & _ & Hbytes).
  split; [exact Hframe|]. split.
  - rewrite (Hbytes
               (mkAuthorization (Some AuthType_Standard)
                  (Some (clear_signature example_condition)) None)
               example_auth "00" "00000000" "03" example_payload
               eq_refl eq_refl eq_refl eq_refl eq_refl).
    vm_compute. reflexivity.
  - split; [vm_compute; reflexivity|]. intros H. vm_compute in H. discriminate H.
Defined.

Lemma signAndAppend_single_sig_witness :
  let condition := clear_signature example_condition in
  singleSig condition = true /\
  signature condition = MessageSignature_empty /\
  exists nextSig nextSigHash condition',
    nextSignature "sighash" AuthType_Standard 0 0 "key" = Ok (nextSig, nextSigHash) /\
    StacksTransaction_signAndAppend "sighash" AuthType_Standard "key" (condition, [])
    = (Ok nextSigHash,
       (condition', [mkNextSignatureCall "sighash" AuthType_Standard 0 0 "key"])) /\
    signature condition' = nextSig /\
    take 3 (signature condition') = [x6b; x65; x79] /\
    signerAddress condition' = signerAddress example_condition /\
    nonce condition' = Some 0 /\ feeRate condition' = Some 0.
Proof.
  cbn zeta.
  assert (singleSig (clear_signature example_condition) = true) as Hs
    by (vm_compute; reflexivity).
  split; [exact Hs|]. split; [reflexivity|].
  destruct (signAndAppend_single_sig (clear_signature example_condition) []
              "sighash" AuthType_Standard "key" 0 0 Hs eq_refl eq_refl)
    as (_ & Hok & _).
  destruct (nextSignature "sighash" AuthType_Standard 0 0 "key")
    as [[nextSig nextSigHash]|msg] eqn:En; [|discriminate En].
  destruct (Hok nextSig nextSigHash eq_refl)
    as (condition' & E & Hsig & _ & Ha & Hn & Hf & _).
  exists nextSig, nextSigHash, condition'.
  split; [reflexivity|]. split; [exact E|]. split; [exact Hsig|].
  split; [|split; [exact Ha|split; [exact Hn|exact Hf]]].
  rewrite Hsig. vm_compute in En. injection En as <- _. reflexivity.
Defined.

Lemma deserialize_version_lenient_witness :
  let this0 : DemoTransaction := new_StacksTransaction None None None in
  let out := StacksTransaction_deserialize (this0, example_odd_version) in
  toHex [x17] <> TransactionVersion_Mainnet /\
  version (fst (snd out)) = Some TransactionVersion_Testnet /\
  chainId (fst (snd out)) = Some "00000000".
Proof.
  cbn zeta.
  split; [discriminate|].
  destruct (StacksTransaction_deserialize
              (new_StacksTransaction None None None : DemoTransaction,
               example_odd_version)) as [res [y r']] eqn:E.
  destruct (deserialize_version_lenient _ example_odd_version x17
              (drop 1 (fromHex example_serialized)) eq_refl res y r' E)
    as (_ & Ht & Hc).
  split; [apply Ht; discriminate|].
  apply (Hc [x00; x00; x00; x00]
            (drop 5 (fromHex example_serialized))); vm_compute; reflexivity.
Defined.

Lemma constructor_defaults_witness :
  let tx : DemoTransaction :=
    new_StacksTransaction (Some TransactionVersion_Mainnet) (Some example_auth)
      (Some example_payload) in
  let cb : DemoTransaction :=
    new_StacksTransaction (Some TransactionVersion_Mainnet) (Some example_auth)
      (Some example_coinbase) in
  chainId tx = Some DEFAULT_CHAIN_ID /\
  postConditionMode tx = PostConditionMode_Deny /\
  postConditions tx = [] /\
  anchorMode tx = Some AnchorMode_Any /\
  anchorMode cb = Some AnchorMode_OnChainOnly.
Proof.
  cbn zeta.
  destruct (@constructor_defaults stacks_constants Principal AssetInfo MessageSignature
              StacksPrivateKey Payload demo_collaborators
              (Some TransactionVersion_Mainnet) (Some example_auth) example_payload)
    as (_ & _ & _ & Hc & Hm & Hl & _ & _ & Hany).
  destruct (@constructor_defaults stacks_constants Principal AssetInfo MessageSignature
              StacksPrivateKey Payload demo_collaborators
              (Some TransactionVersion_Mainnet) (Some example_auth) example_coinbase)
    as (_ & _ & _ & _ & _ & _ & Hcb & _ & _).
  split; [exact Hc|]. split; [exact Hm|]. split; [exact Hl|].
  split; [apply Hany; discriminate|apply Hcb; reflexivity].
Defined.

Lemma constructor_without_payload_witness :
  anchorMode example_empty = None /\
  StacksTransaction_serialize example_empty
  = (Throw (undefined_error "anchorMode"), example_empty).
Proof.
  destruct (@constructor_without_payload stacks_constants Principal AssetInfo _ _
              MessageSignature StacksPrivateKey Payload _ _ demo_collaborators)
    as (Hnone & Hser & _).
  split; [exact (Hnone _ _)|].
  apply Hser; [exact (Hnone _ _)|discriminate|discriminate|discriminate].
Defined.

Ltac differ := let H := fresh in intros H; vm_compute in H; discriminate H.

(** The bytes of the STX post-condition of the test suite. *)
Lemma PostCondition_serialize_layout_witness :
  exists bp,
    serialize example_principal = Ok bp /\
    fst (PostCondition_serialize example_stx)
    = Ok (fromHex "00" ++ bp ++ fromHex "03" ++ N_to_be 8 1000000) /\
    toHex (fromHex "00" ++ bp ++ fromHex "03" ++ N_to_be 8 1000000)
    = example_stx_serialized.
Proof.
  destruct (serialize example_principal) as [bp|msg] eqn:Sp;
    [|vm_compute in Sp; discriminate Sp].
  exists bp. split; [reflexivity|].
  destruct (PostCondition_serialize_layout (K_ok := constants_ok) example_stx
              example_principal "03" eq_refl eq_refl
              (fromHex "00" ++ bp ++ fromHex "03" ++ N_to_be 8 1000000))
    as (HS & _ & _).
  split.
  - apply (HS eq_refl). exists bp, 1000000.
    split; [exact Sp|]. split; [reflexivity|]. split; reflexivity.
  - vm_compute in Sp. injection Sp as <-. vm_compute. reflexivity.
Defined.

(** An asset info and an over-long asset name put into the STX
    post-condition, and an amount of [2^64] put into the non-fungible
    one, change nothing. *)
Lemma PostCondition_serialize_ignores_witness :
  fst (PostCondition_serialize (set_assetInfo (Some example_assetInfo) example_stx))
  = fst (PostCondition_serialize example_stx) /\
  fst (PostCondition_serialize
         (set_assetName (Some (new_LengthPrefixedString long_name)) example_stx))
  = fst (PostCondition_serialize example_stx) /\
  fst (PostCondition_serialize (set_amount (Some (2 ^ 64)) example_nft))
  = fst (PostCondition_serialize example_nft).
Proof.
  destruct (PostCondition_serialize_ignores example_stx) as (HI & HN & _).
  destruct (PostCondition_serialize_ignores example_nft) as (_ & _ & HA).
  split; [apply HI; differ|]. split; [apply HN; differ|apply HA; differ].
Defined.

(** The bytes of the STX post-condition read into the object of the
    non-fungible one: the asset info and the asset name stay. *)
Lemma PostCondition_deserialize_frame_witness :
  let out :=
    PostCondition_deserialize
      (example_nft, BufferReader_new (fromHex example_stx_serialized)) in
  fst out = Ok tt /\
  postConditionType (fst (snd out)) = Some PostConditionType_STX /\
  assetInfo (fst (snd out)) = Some example_assetInfo /\
  assetName (fst (snd out)) = Some (new_LengthPrefixedString "nft_asset_name").
Proof.
  cbn zeta.
  destruct (PostCondition_deserialize
              (example_nft, BufferReader_new (fromHex example_stx_serialized)))
    as [res [y r']] eqn:E.
  assert (res = Ok tt /\ postConditionType y = Some PostConditionType_STX) as [Hres Ht].
  { vm_compute in E. injection E as <- <- _. split; reflexivity. }
  destruct (PostCondition_deserialize_frame _ _ _ _ _ E) as (HI & HN & _).
  cbn [fst snd]. split; [exact Hres|]. split; [exact Ht|].
  split; [apply HI|apply HN]; rewrite Ht; differ.
Defined.


(** The bytes of the non-fungible post-condition, followed by a zero
    byte, are those of no other well-formed post-condition. *)
Lemma serialize_prefix_free_witness :
  exists bs,
    fst (PostCondition_serialize example_nft) = Ok bs /\
    (example_nft = example_nft /\ bs = bs /\ [x00] = [x00]).
Proof.
  destruct (fst (PostCondition_serialize example_nft)) as [bs|msg] eqn:E;
    [|vm_compute in E; discriminate E].
  exists bs. split; [reflexivity|].
  destruct (serialize_prefix_free (K_ok := constants_ok)
              wf_Principal wf_AssetInfo wf_Authorization wf_Payload
              lawful_Principal lawful_AssetInfo lawful_Authorization lawful_Payload)
    as [HP _].
  exact (HP example_nft example_nft bs bs [x00] [x00] wf_example_nft wf_example_nft
            E E eq_refl).
Defined.

(** The serialized transfer, read into a fresh transaction and into
    the transfer that carries three post-conditions. *)
Lemma StacksTransaction_deserialize_overwrites_witness :
  StacksTransaction_deserialize
    (new_StacksTransaction None None None, BufferReader_new (fromHex example_serialized))
  = (Ok tt, (example_transaction, mkReader (fromHex example_serialized) 179)) /\
  StacksTransaction_deserialize
    (example_guarded, BufferReader_new (fromHex example_serialized))
  = (Ok tt, (example_transaction, mkReader (fromHex example_serialized) 179)).
Proof.
  split; [exact example_transaction_deserialized|].
  exact (StacksTransaction_deserialize_overwrites _ example_guarded _ _ _
           example_transaction_deserialized).
Defined.

Lemma deserialize_required_fields_witness :
  (exists (y : DemoPostCondition) r',
     PostCondition_deserialize
       (example_nft, BufferReader_new (fromHex example_stx_serialized))
     = (Ok tt, (y, r')) /\
     PostCondition_first_absent y = None /\
     exists a, amount y = Some a /\ a < 2 ^ 64) /\
  StacksTransaction_first_absent example_transaction = None /\
  hex_tag (postConditionMode example_transaction).
Proof.
  destruct (@deserialize_required_fields stacks_constants Principal AssetInfo _ _
              MessageSignature Payload _ _) as [HP HT].
  split.
  - destruct (PostCondition_deserialize
                (example_nft, BufferReader_new (fromHex example_stx_serialized)))
      as [res [y r']] eqn:E.
    assert (res = Ok tt /\ postConditionType y = Some PostConditionType_STX)
      as [-> Ht].
    { vm_compute in E. injection E as <- <- _. split; reflexivity. }
    exists y, r'. split; [reflexivity|].
    destruct (HP _ _ _ _ E) as (H1 & _ & _ & H4).
    split; [exact H1|]. apply H4. left. exact Ht.
  - destruct (HT _ _ _ _ example_transaction_deserialized) as (H1 & _ & _ & _ & H5).
    split; [exact H1|exact H5].
Defined.

(** The STX post-condition added to the transfer that carries the
    three post-conditions. *)
Lemma addPostCondition_roundtrip_witness :
  let x' := set_postConditions (postConditions example_guarded ++ [example_stx])
              example_guarded in
  StacksTransaction_addPostCondition example_stx example_guarded = (Ok tt, x') /\
  wf_StacksTransaction wf_Principal wf_AssetInfo wf_Authorization wf_Payload x' /\
  exists bs,
    StacksTransaction_serialize x' = (Ok bs, x') /\
    forall this0 r rest, remaining r = bs ++ rest ->
      StacksTransaction_deserialize (this0, r) = (Ok tt, (x', advance (length bs) r)).
Proof.
  apply (addPostCondition_roundtrip (K_ok := constants_ok)
           wf_Principal wf_AssetInfo wf_Authorization wf_Payload
           lawful_Principal lawful_AssetInfo lawful_Authorization lawful_Payload
           example_guarded example_stx wf_example_guarded wf_example_stx).
  vm_compute. reflexivity.
Defined.

(** Added to the transfer, the post-condition whose asset name is too
    long makes [serialize] throw the error of the asset name; the STX
    post-condition makes the count one and puts its bytes before the
    payload. *)
Lemma addPostCondition_serialize_witness :
  fst (StacksTransaction_serialize
         (snd (StacksTransaction_addPostCondition example_unfinished
                 example_transaction)))
  = Throw "String length exceeds maximum bytes 128" /\
  exists ba bp bpc,
    serialize example_auth = Ok ba /\ serialize example_payload = Ok bp /\
    fst (PostCondition_serialize example_stx) = Ok bpc /\
    fst (StacksTransaction_serialize
           (snd (StacksTransaction_addPostCondition example_stx example_transaction)))
    = Ok ((fromHex "00" ++ fromHex "00000000" ++ ba ++ fromHex "03" ++ fromHex "02")
            ++ N_to_be 4 1 ++ [] ++ bpc ++ bp).
Proof.
  destruct (serialize example_auth) as [ba|] eqn:Sa; [|vm_compute in Sa; discriminate Sa].
  destruct (serialize example_payload) as [bp|] eqn:Sp;
    [|vm_compute in Sp; discriminate Sp].
  split.
  - destruct (addPostCondition_serialize example_transaction example_unfinished
                "00" "00000000" example_auth "03" example_payload ba [] bp
                eq_refl eq_refl eq_refl eq_refl eq_refl Sa eq_refl Sp) as [_ H].
    rewrite H. vm_compute. reflexivity.
  - destruct (addPostCondition_serialize example_transaction example_stx
                "00" "00000000" example_auth "03" example_payload ba [] bp
                eq_refl eq_refl eq_refl eq_refl eq_refl Sa eq_refl Sp) as [_ H].
    destruct (fst (PostCondition_serialize example_stx)) as [bpc|] eqn:Spc;
      [|vm_compute in Spc; discriminate Spc].
    exists ba, bp, bpc. split; [reflexivity|]. split; [reflexivity|].
    split; [reflexivity|]. exact H.
Defined.

(** Signing the unsigned transfer stores the signature in the
    condition of its authorization; signing the transfer whose
    condition is not single-sig makes the call and returns the next
    sighash, and leaves the transaction as it was. *)
Lemma signNextOrigin_signs_witness :
  singleSig (clear_signature example_condition) = true /\
  singleSig example_multisig_condition = false /\
  exists nextSig nextSigHash,
    nextSignature "sighash" AuthType_Standard 0 0 "key" = Ok (nextSig, nextSigHash) /\
    take 3 nextSig = [x6b; x65; x79] /\
    (exists this' a' c',
       StacksTransaction_signNextOrigin "sighash" "key" (example_unsigned, [])
       = (Ok nextSigHash,
          (this', [mkNextSignatureCall "sighash" AuthType_Standard 0 0 "key"])) /\
       auth this' = Some a' /\ spendingCondition a' = Some c' /\
       signature c' = nextSig /\
       signerAddress c' = signerAddress example_condition /\
       payload this' = Some example_payload) /\
    StacksTransaction_signNextOrigin "sighash" "key" (example_multisig, [])
    = (Ok nextSigHash,
       (example_multisig, [mkNextSignatureCall "sighash" AuthType_Standard 0 0 "key"])).
Proof.
  assert (singleSig (clear_signature example_condition) = true) as Hs1
    by (vm_compute; reflexivity).
  assert (singleSig example_multisig_condition = false) as Hs2
    by (vm_compute; reflexivity).
  split; [exact Hs1|]. split; [exact Hs2|].
  destruct (signNextOrigin_signs example_unsigned [] "sighash" "key"
              (set_spendingCondition (Some (clear_signature example_condition))
                 example_auth)
              (clear_signature example_condition) AuthType_Standard 0 0
              eq_refl eq_refl eq_refl eq_refl eq_refl) as (_ & Hsingle & _).
  destruct (signNextOrigin_signs example_multisig [] "sighash" "key"
              example_multisig_auth example_multisig_condition AuthType_Standard 0 0
              eq_refl eq_refl eq_refl eq_refl eq_refl) as (_ & _ & Hmulti).
  destruct (nextSignature "sighash" AuthType_Standard 0 0 "key")
    as [[nextSig nextSigHash]|msg] eqn:En; [|discriminate En].
  exists nextSig, nextSigHash. split; [reflexivity|]. split.
  { vm_compute in En. injection En as <- _. reflexivity. }
  split.
  - destruct (Hsingle nextSig nextSigHash eq_refl Hs1)
      as (this' & a' & c' & E & Ha & Hc & Hsig & _ & Hsa & _ & _ & _ & _ & _ & _ & _ & _
          & Hp & _).
    exists this', a', c'. split; [exact E|]. split; [exact Ha|]. split; [exact Hc|].
    split; [exact Hsig|]. split; [exact Hsa|]. rewrite Hp. reflexivity.
  - exact (Hmulti nextSig nextSigHash eq_refl Hs2).
Defined.

Lemma signNextOrigin_frame_witness :
  let out := StacksTransaction_signNextOrigin "sighash" "key" (example_unsigned, []) in
  (fst (snd out) = example_unsigned \/
   exists a c sig,
     auth example_unsigned = Some a /\ spendingCondition a = Some c /\
     singleSig c = true /\ is_Ok (fst out) = true /\
     fst (snd out)
     = set_auth (Some (set_spendingCondition (Some (set_signature sig c)) a))
         example_unsigned) /\
  (snd (snd out) = [] \/
   exists t f n, snd (snd out) = [] ++ [mkNextSignatureCall "sighash" t f n "key"]).
Proof.
  cbn zeta.
  destruct (StacksTransaction_signNextOrigin "sighash" "key" (example_unsigned, []))
    as [res [this' calls']] eqn:E.
  exact (signNextOrigin_frame _ _ _ _ _ _ _ E).
Defined.

(** Signing the unsigned transfer changes it, and [signBegin] returns
    the same sighash afterwards. *)
Lemma signBegin_after_signNextOrigin_witness :
  let out := StacksTransaction_signNextOrigin "sighash" "key" (example_unsigned, []) in
  fst (snd out) <> example_unsigned /\
  fst (StacksTransaction_signBegin (fst (snd out)))
  = fst (StacksTransaction_signBegin example_unsigned).
Proof.
  cbn zeta.
  destruct (StacksTransaction_signNextOrigin "sighash" "key" (example_unsigned, []))
    as [res [this' calls']] eqn:E.
  cbn [fst snd]. split.
  - vm_compute in E. injection E as _ <- _. differ.
  - apply (signBegin_after_signNextOrigin example_unsigned [] "sighash" "key"
             res this' calls'); [|exact E].
    intros [t sc sp] c sig Hc. cbn in Hc. subst sc. reflexivity.
Defined.

(** The transaction built without a payload has no anchor mode:
    [txid] and [signBegin] throw the error that names it. *)
Lemma txid_signBegin_missing_field_witness :
  StacksTransaction_txid example_empty
  = (Throw (undefined_error "anchorMode"), example_empty) /\
  StacksTransaction_signBegin example_empty
  = (Throw (undefined_error "anchorMode"), example_empty) /\
  StacksTransaction_signBegin (set_auth None example_empty)
  = (Throw (undefined_error "auth"), set_auth None example_empty).
Proof.
  destruct (txid_signBegin_missing_field example_empty) as (_ & HT & _ & HS).
  destruct (txid_signBegin_missing_field (set_auth None example_empty))
    as (_ & _ & HA & _).
  split; [exact (HT "anchorMode" eq_refl)|].
  split; [|exact (HA eq_refl)].
  destruct (intoInitialSighashAuth example_auth) as [[initial|msg] a'] eqn:Ei;
    [|vm_compute in Ei; discriminate Ei].
  exact (HS example_auth initial a' "anchorMode" eq_refl Ei eq_refl).
Defined.

(** The STX post-condition built with an asset info and an asset name
    reads back as the one built without them. *)
Lemma serialize_deserialize_normalises_witness :
  exists bs,
    PostCondition_serialize example_stx_extra = (Ok bs, example_stx_extra) /\
    PostCondition_serialize example_stx = (Ok bs, example_stx) /\
    forall ty0 r rest, remaining r = bs ++ rest ->
      PostCondition_deserialize (new_PostCondition ty0 None None None None None, r)
      = (Ok tt, (example_stx, advance (length bs) r)).
Proof.
  apply (serialize_deserialize_normalises (K_ok := constants_ok)
           wf_Principal wf_AssetInfo lawful_Principal lawful_AssetInfo
           example_stx_extra example_stx wf_example_stx).
  - reflexivity.
  - reflexivity.
  - reflexivity.
  - intros _. reflexivity.
  - intros [H|H]; vm_compute in H; discriminate H.
  - differ.
Defined.

(** The error of the authorization comes before the one of the
    payload. *)
Lemma StacksTransaction_serialize_error_order_witness :
  StacksTransaction_serialize example_untyped_auth
  = (Throw (undefined_error "authType"), example_untyped_auth) /\
  StacksTransaction_serialize (set_payload (payload example_short_memo) example_untyped_auth)
  = (Throw (undefined_error "authType"),
     set_payload (payload example_short_memo) example_untyped_auth) /\
  StacksTransaction_serialize example_short_memo
  = (Throw "memo is not 34 bytes long", example_short_memo).
Proof.
  split; [|split].
  - destruct (StacksTransaction_serialize_error_order example_untyped_auth
                "00" "00000000" (mkAuthorization None (Some example_condition) None)
                "03" example_payload eq_refl eq_refl eq_refl eq_refl eq_refl)
      as (HA & _ & _).
    apply HA. reflexivity.
  - destruct (StacksTransaction_serialize_error_order
                (set_payload (payload example_short_memo) example_untyped_auth)
                "00" "00000000" (mkAuthorization None (Some example_condition) None)
                "03" (TokenTransferPayload example_recipient 12345 [x00])
                eq_refl eq_refl eq_refl eq_refl eq_refl)
      as (HA & _ & _).
    apply HA. reflexivity.
  - destruct (serialize example_auth) as [ba|] eqn:Sa;
      [|vm_compute in Sa; discriminate Sa].
    destruct (StacksTransaction_serialize_error_order example_short_memo
                "00" "00000000" example_auth
                "03" (TokenTransferPayload example_recipient 12345 [x00])
                eq_refl eq_refl eq_refl eq_refl eq_refl)
      as (_ & _ & HP).
    apply (HP ba (N_to_be 4 0)); [exact Sa|reflexivity|].
    vm_compute. reflexivity.
Defined.

(** The non-fungible post-condition whose asset name is too long and
    whose condition code is absent: the error is the one of the asset
    name. *)
Lemma PostCondition_serialize_error_order_witness :
  conditionCode example_unfinished = None /\
  PostCondition_serialize example_unfinished
  = (Throw "String length exceeds maximum bytes 128", example_unfinished).
Proof.
  split; [reflexivity|].
  destruct (serialize example_contract_principal) as [bp|] eqn:Sp;
    [|vm_compute in Sp; discriminate Sp].
  destruct (serialize example_assetInfo) as [bi|] eqn:Si;
    [|vm_compute in Si; discriminate Si].
  destruct (PostCondition_serialize_error_order example_unfinished
              PostConditionType_NonFungible example_contract_principal
              eq_refl eq_refl) as (_ & _ & HN).
  apply (HN bp example_assetInfo bi (new_LengthPrefixedString long_name));
    [exact Sp|reflexivity|reflexivity|exact Si|reflexivity|].
  vm_compute. reflexivity.
Defined.

(** A standard principal serializes to the bytes it has been read
    from. *)
Lemma reserialize_StandardPrincipal (a : Address) r1 r2 :
  deserialize r1 = (Ok (StandardPrincipal a), r2) ->
  exists bs, serialize (StandardPrincipal a) = Ok bs /\ remaining r1 = bs ++ remaining r2.
Proof.
  cbn [deserialize serialize Principal_message].
  unfold Principal_deserialize, Principal_serialize.
  cbn [deserialize serialize Address_message].
  unfold Address_deserialize, Address_serialize, bind, ret, throw. cbn [rbind].
  destruct (read 1 r1) as [[t|?] ra] eqn:Rt; [|discriminate].
  destruct (read 1 ra) as [[v|?] rb] eqn:Rv; [|discriminate].
  destruct (read 20 rb) as [[h|?] rc] eqn:Rh; [|discriminate].
  destruct (read_Ok _ _ _ _ Rt) as [Lt _]. destruct (read_Ok _ _ _ _ Rv) as [Lv _].
  apply read_Ok_remaining in Rt, Rv, Rh.
  case_bool_decide as Ht.
  - intros [= <- <-]. eexists. split; [reflexivity|].
    cbn [address_version hash160].
    destruct v as [|v0 [|? ?]]; try discriminate Lv. cbn [hd].
    assert (t = [x02]) as -> by (apply toHex_inj; exact Ht).
    rewrite Rt, Rv, Rh. reflexivity.
  - case_bool_decide; [|discriminate].
    destruct (deserialize rc) as [[n|?] rd]; discriminate.
Qed.

(** The bytes of the STX post-condition, read and written again. *)
Lemma PostCondition_deserialize_serialize_witness :
  exists (y : DemoPostCondition) r',
    PostCondition_deserialize
      (new_PostCondition None None None None None None,
       BufferReader_new (fromHex example_stx_serialized))
    = (Ok tt, (y, r')) /\
    postConditionType y = Some PostConditionType_STX /\
    fst (PostCondition_serialize y) = Ok (fromHex example_stx_serialized) /\
    remaining r' = [].
Proof.
  destruct (PostCondition_deserialize
              (new_PostCondition None None None None None None : DemoPostCondition,
               BufferReader_new (fromHex example_stx_serialized)))
    as [res [y r']] eqn:E.
  assert (res = Ok tt /\ postConditionType y = Some PostConditionType_STX /\
          principal y = Some example_principal /\ remaining r' = [])
    as (-> & Ht & Hp & Hr').
  { vm_compute in E. injection E as <- <- <-. repeat split. }
  destruct (PostCondition_deserialize_serialize _ _ _ _ E) as (bs & Hs & Hr).
  - rewrite Ht. intros H. vm_compute in H. discriminate H.
  - intros p r1 r2 Ep D. rewrite Hp in Ep. injection Ep as <-.
    exact (reserialize_StandardPrincipal _ _ _ D).
  - intros i r1 r2 Hc. rewrite Ht in Hc. vm_compute in Hc. discriminate Hc.
  - exists y, r'. split; [reflexivity|]. split; [exact Ht|]. split; [|exact Hr'].
    rewrite Hs. rewrite Hr', app_nil_r in Hr. rewrite <- Hr. reflexivity.
Defined.
End Witnesses.
